(** * gotadoflux: the tado credential manager and the collection cycle

    A shallow embedding of [tado/tado.go] (credential store, token
    acquisition and renewal, [AuthCheck], the three API calls) and of
    [collect] from the main package, followed by the properties of the
    specification that concern them.

    Conventions of the embedding.
    - A Go method with receiver [t *Tado] is a computation in the monad [M],
      which threads the [Tado] struct and the [World] (disk, clock, remote
      services, trace) and can end in a run-time panic.
    - A Go result pair [(v, err)] is a Rocq pair whose second component is an
      [option error]; [None] is Go's [nil] error.
    - A Go pointer field that may be [nil] is an [option]; dereferencing
      [None] is a panic, as in Go.
    - [log] output is not modelled. *)

From Stdlib Require Import ZArith String Ascii List Bool Lia.
From Stdlib Require Import Floats.SpecFloat.
From stdpp Require Import gmap strings list pretty.

Local Open Scope string_scope.
Local Open Scope list_scope.
Local Open Scope Z_scope.

(** ** Instants, durations and numbers *)

(** [time.Time]: an instant, counted in nanoseconds on the integer line.
    Go saturates instants at about 2^63 seconds from its zero instant; the
    model does not bound them. *)
Abbreviation Time := Z (only parsing).

(** [time.Duration] is an [int64] count of nanoseconds. *)
Abbreviation Duration := Z (only parsing).

Definition wrap64 (x : Z) : Z := (x + 2 ^ 63) mod 2 ^ 64 - 2 ^ 63.

Definition Second : Duration := 1000000000.
Definition Hour : Duration := 3600 * Second.

Definition Before (t u : Time) : bool := t <? u.
Definition After (t u : Time) : bool := u <? t.
Definition Add (t : Time) (d : Duration) : Time := t + d.

Arguments Before : simpl never.
Arguments After : simpl never.
Arguments Add : simpl never.

(** Product of two durations, as [int64] multiplication. *)
Definition dmul (a b : Duration) : Duration := wrap64 (a * b).

(** The freshness window of the persisted credential, [180 * 25 * time.Hour]. *)
Definition freshness : Duration := 180 * 25 * Hour.

(** [float32]: IEEE 754 binary32 values, in the Standard Library's format
    independent representation (24 bits of precision, exponents up to 128). *)
Abbreviation float32 := spec_float (only parsing).

Definition f32_valid (x : float32) : bool := valid_binary 24 128 x.

Definition f32_0 : float32 := S754_zero false.
Definition f32_100 : float32 := S754_finite false 13107200 (-17).

(** The rational value [m * 2^e] of a finite binary32, as the pair of an
    integer numerator and a power-of-two denominator. *)
Definition f32_ratio (x : float32) : option (Z * Z) :=
  match x with
  | S754_zero _ => Some (0, 1)
  | S754_finite s m e =>
      let n := if s then Z.neg m else Z.pos m in
      Some (if 0 <=? e then (n * 2 ^ e, 1) else (n, 2 ^ (- e)))
  | _ => None
  end.

(** Go's [error] values are kept as their message. *)
Abbreviation error := string (only parsing).

(** [strconv.Itoa] and the [%d] verb. *)
Definition Itoa (n : Z) : string := pretty n.

Arguments Itoa : simpl never.

(** [strings.ToUpper], on the bytes of the string: the letters [a]-[z] are
    mapped to [A]-[Z]. Go also maps letters outside ASCII; none of them maps
    to [O] or [N], so a comparison of the result with ["ON"] is the same. *)
Definition upper_ascii (c : ascii) : ascii :=
  let n := nat_of_ascii c in
  if (97 <=? n)%nat && (n <=? 122)%nat then ascii_of_nat (n - 32) else c.

Fixpoint ToUpper (s : string) : string :=
  match s with
  | EmptyString => EmptyString
  | String c r => String (upper_ascii c) (ToUpper r)
  end.

(** ** The host: files and platform *)

Record File := {
  f_mode : Z;          (* os.FileMode, permission and type bits *)
  f_modTime : Time;
  f_data : string;
}.

Record Host := {
  files : gmap string File;
  unreadable : gset string;   (* paths the system refuses to open for reading *)
  unwritable : gset string;   (* paths the system refuses to open for writing *)
  umask : Z;
  GOOS : string;              (* runtime.GOOS *)
}.

(** [os.Stat]: the file's information, or the error of a missing file. *)
Definition Stat (h : Host) (path : string) : File * option error :=
  match files h !! path with
  | Some f => (f, None)
  | None => ({| f_mode := 0; f_modTime := 0; f_data := "" |},
             Some ("stat " +:+ path +:+ ": no such file or directory"))
  end.

Definition Size (f : File) : Z := Z.of_nat (String.length (f_data f)).

(** [ioutil.ReadFile]. *)
Definition ReadFile (h : Host) (path : string) : string * option error :=
  match files h !! path with
  | None => ("", Some ("open " +:+ path +:+ ": no such file or directory"))
  | Some f =>
      if decide (path ∈ unreadable h)
      then ("", Some ("open " +:+ path +:+ ": permission denied"))
      else (f_data f, None)
  end.

(** [ioutil.WriteFile path data perm] at instant [now]: an existing file is
    truncated and rewritten and keeps its mode; a missing file is created
    with [perm] less the bits of the process's umask. *)
Definition WriteFile (h : Host) (now : Time) (path data : string) (perm : Z)
  : Host * option error :=
  if decide (path ∈ unwritable h)
  then (h, Some ("open " +:+ path +:+ ": permission denied"))
  else
    let mode := match files h !! path with
                | Some f => f_mode f
                | None => Z.ldiff perm (umask h)
                end in
    ({| files := <[path := {| f_mode := mode; f_modTime := now; f_data := data |}]> (files h);
        unreadable := unreadable h; unwritable := unwritable h;
        umask := umask h; GOOS := GOOS h |}, None).

(** [os.FileMode(int(0600))] *)
Definition mode_0600 : Z := 384.
Definition mode_0666 : Z := 438.

(** ** Remote services *)

Record TadoError := {
  Error : string;
  Description : string;
}.

Record TokenResponse := {
  AccessToken : string;
  TokenType : string;
  RefreshToken_ : string;     (* field RefreshToken; the method has the name *)
  ExpiresIn : Z;
  Scope : string;
  Jti : string;
}.

Record Home := { Id : Z; Name : string }.

Record Zone := { zone_Id : Z; zone_Name : string }.

Record AcPower := {
  ac_Value : option string;
  ac_Timestamp : option Time;
}.

Record HeatingPower := {
  hp_Percentage : option float32;
  hp_Timestamp : option Time;
}.

Record Temperature := {
  Celsius : option float32;
  Timestamp : option Time;
}.

Record Humidity := {
  hum_Percentage : option float32;
  hum_Timestamp : option Time;
}.

Record SensorDataPoints := {
  InsideTemperature : option Temperature;
  Humidity_ : option Humidity;
}.

Record ActivityDataPoints := {
  AcPower_ : option AcPower;
  HeatingPower_ : option HeatingPower;
}.

Record ZoneState := {
  SensorDataPoints_ : SensorDataPoints;
  ActivityDataPoints_ : ActivityDataPoints;
}.

(** [ZoneStates map[string]ZoneState]. Go visits a map in an order of the
    run time's choosing; the map is held as its entries in the order the
    [range] loops visit them. *)
Record ZoneStatesResponse := {
  ZoneStates : list (string * ZoneState);
}.

(** [Homes []*Home]: a slice of pointers. *)
Record MeResponse := {
  Homes : list (option Home);
}.

(** The JSON document of a response body, by its shape. *)
Inductive Body :=
  | BError (e : TadoError)
  | BTokens (tk : TokenResponse)
  | BMe (me : MeResponse)
  | BZoneStates (zs : ZoneStatesResponse)
  | BZones (zs : list Zone)
  | BInvalid.

Record Response := {
  StatusCode : Z;
  Body_ : Body;
}.

Record Request := {
  rq_method : string;
  rq_url : string;
  rq_authorization : option string;
  rq_form : gmap string string;
}.

(** What a remote service does with the next request: it answers, or the
    transport fails, after [latency] nanoseconds. *)
Record Reply := {
  latency : Duration;
  result : Response + error;
}.

(** A point of the time-series client. *)
Record Point := {
  pt_name : string;
  pt_tags : gmap string string;
  pt_fields : gmap string float32;
  pt_time : Time;
}.

Record SinkReply := {
  sk_latency : Duration;
  sk_err : option error;
}.

(** ** The world and its trace *)

Inductive Event :=
  | EvCall (method : string) (id : Z)
      (* an API method of the client was entered *)
  | EvSent (rq : Request) (h : Host) (at_ : Time)
      (* a request left, with the host's disk and the instant at that moment *)
  | EvWrite (database : string) (batch : list (option Point)) (err : option error).
      (* a batch was handed to the sink *)

Record World := {
  host : Host;
  now : Time;
  net : list Reply;          (* answers of the tado services, in order *)
  sink : list SinkReply;     (* answers of the time-series store, in order *)
  trace : list Event;
}.

Definition set_host (h : Host) (w : World) : World :=
  {| host := h; now := now w; net := net w; sink := sink w; trace := trace w |}.

Definition emit (e : Event) (w : World) : World :=
  {| host := host w; now := now w; net := net w; sink := sink w;
     trace := trace w ++ [e] |}.

(** ** The client struct and the monad of its methods *)

Record Tado := {
  Username : string;
  password : string;
  refreshTokenPath : string;
  accessToken : string;
  expires : Time;
  refresh : Time;
}.

Definition NewTado (username password_ refreshTokenPath_ : string) : Tado :=
  {| Username := username; password := password_;
     refreshTokenPath := refreshTokenPath_;
     accessToken := ""; expires := 0; refresh := 0 |}.

Inductive Outcome (A : Type) :=
  | Ok (a : A) (t : Tado) (w : World)
  | Panic (msg : string).
Arguments Ok {A} a t w.
Arguments Panic {A} msg.

Definition M (A : Type) : Type := Tado → World → Outcome A.

#[global] Instance M_ret : MRet M := λ A a t w, Ok a t w.

#[global] Instance M_bind : MBind M := λ A B k m t w,
  match m t w with
  | Ok a t' w' => k a t' w'
  | Panic msg => Panic msg
  end.

Definition panic {A} (msg : string) : M A := λ _ _, Panic msg.

Definition get_t : M Tado := λ t w, Ok t t w.
Definition get_w : M World := λ t w, Ok w t w.
Definition put_w (w' : World) : M unit := λ t _, Ok tt t w'.

(** [time.Now()] *)
Definition time_Now : M Time := λ t w, Ok (now w) t w.

Definition tell (e : Event) : M unit := λ t w, Ok tt t (emit e w).

(** [t.client.Do(request)]: the request leaves, and the next answer of the
    services arrives after its latency. With no service left to answer the
    transport fails at once. *)
Definition client_Do (rq : Request) : M (Response + error) :=
  λ t w,
    let w1 := emit (EvSent rq (host w) (now w)) w in
    match net w1 with
    | [] => Ok (inr "connection refused") t w1
    | r :: rest =>
        Ok (result r) t
           {| host := host w1; now := Add (now w1) (latency r); net := rest;
              sink := sink w1; trace := trace w1 |}
    end.

(** [json.NewDecoder(body).Decode(v)]: a document of another shape leaves
    [v] at its zero value; a document that is no JSON object (or, for a
    slice, no array) is an error. *)
Definition zero_TadoError : TadoError := {| Error := ""; Description := "" |}.
Definition zero_TokenResponse : TokenResponse :=
  {| AccessToken := ""; TokenType := ""; RefreshToken_ := ""; ExpiresIn := 0;
     Scope := ""; Jti := "" |}.

Definition json_error : error := "json: cannot unmarshal".

Definition decode_TadoError (b : Body) : TadoError * option error :=
  match b with
  | BError e => (e, None)
  | BTokens _ | BMe _ | BZoneStates _ => (zero_TadoError, None)
  | BZones _ | BInvalid => (zero_TadoError, Some json_error)
  end.

Definition decode_TokenResponse (b : Body) : TokenResponse * option error :=
  match b with
  | BTokens tk => (tk, None)
  | BError _ | BMe _ | BZoneStates _ => (zero_TokenResponse, None)
  | BZones _ | BInvalid => (zero_TokenResponse, Some json_error)
  end.

Definition decode_MeResponse (b : Body) : MeResponse * option error :=
  match b with
  | BMe me => (me, None)
  | BError _ | BTokens _ | BZoneStates _ => ({| Homes := [] |}, None)
  | BZones _ | BInvalid => ({| Homes := [] |}, Some json_error)
  end.

Definition decode_ZoneStatesResponse (b : Body) : ZoneStatesResponse * option error :=
  match b with
  | BZoneStates zs => (zs, None)
  | BError _ | BTokens _ | BMe _ => ({| ZoneStates := [] |}, None)
  | BZones _ | BInvalid => ({| ZoneStates := [] |}, Some json_error)
  end.

Definition decode_Zones (b : Body) : list Zone * option error :=
  match b with
  | BZones zs => (zs, None)
  | _ => ([], Some json_error)
  end.

(** A computation that only inspects the client and the world. *)
Definition read {A} (f : Tado → World → A) : M A := λ t w, Ok (f t w) t w.

Definition set_accessToken (v : string) : M unit := λ t w,
  Ok tt {| Username := Username t; password := password t;
           refreshTokenPath := refreshTokenPath t;
           accessToken := v; expires := expires t; refresh := refresh t |} w.

Definition set_expires (v : Time) : M unit := λ t w,
  Ok tt {| Username := Username t; password := password t;
           refreshTokenPath := refreshTokenPath t;
           accessToken := accessToken t; expires := v; refresh := refresh t |} w.

Definition set_refresh (v : Time) : M unit := λ t w,
  Ok tt {| Username := Username t; password := password t;
           refreshTokenPath := refreshTokenPath t;
           accessToken := accessToken t; expires := expires t; refresh := v |} w.

(** Dereference of a pointer. *)
Definition deref {A} (p : option A) : M A :=
  match p with
  | Some a => mret a
  | None => panic "invalid memory address or nil pointer dereference"
  end.

(** Go's [len] of a string. *)
Definition len (s : string) : Z := Z.of_nat (String.length s).

(** ** The secret codec *)

(** Modelled from the spec: [TokenEncrypt] and [TokenDecrypt] are defined in a
    file of the [tado] package that is not among the sources at hand. The
    spec describes them as a reversible at-rest obfuscation and fixes no
    transform, so they are operations of a class; [codec_reversible] is the
    one property the spec gives them. *)
Class SecretCodec := {
  TokenEncrypt : string → string;
  TokenDecrypt : string → string;
}.

Definition codec_reversible (C : SecretCodec) : Prop :=
  ∀ s : string, TokenDecrypt (TokenEncrypt s) = s.

(** Modelled from the spec: one reversible codec, which complements every
    bit of the secret, to run the store on concrete inputs. *)
Definition flip (c : ascii) : ascii :=
  let 'Ascii b0 b1 b2 b3 b4 b5 b6 b7 := c in
  Ascii (negb b0) (negb b1) (negb b2) (negb b3) (negb b4) (negb b5) (negb b6) (negb b7).

Fixpoint mask (s : string) : string :=
  match s with
  | EmptyString => EmptyString
  | String c r => String (flip c) (mask r)
  end.

Definition masking_codec : SecretCodec :=
  {| TokenEncrypt := mask; TokenDecrypt := mask |}.

(** ** The time-series client library *)

(** [client.NewPoint] belongs to the time-series client library, which
    validates the point (finite field values, a time stamp in its range) and
    returns an error and no point when it refuses. The validation is an
    operation of a class. *)
Class PointLibrary := {
  NewPoint_check : string → gmap string string → gmap string float32 → Time → option error;
}.

(** A library that takes every point. *)
Definition lenient_library : PointLibrary :=
  {| NewPoint_check := λ _ _ _ _, None |}.

Definition NewPoint `{PointLibrary} (name : string) (tags : gmap string string)
    (fields : gmap string float32) (t : Time) : option Point * option error :=
  match NewPoint_check name tags fields t with
  | Some err => (None, Some err)
  | None => (Some {| pt_name := name; pt_tags := tags; pt_fields := fields; pt_time := t |}, None)
  end.

(** ** tado/tado.go *)

Definition TADO_TOKEN := "https://auth.tado.com/oauth/token".
Definition TADO_CLIENTID := "tado-web-app".
Definition TADO_CLIENTSECRET := "wZaRN7rpjn3FoNyF5IFuxg9uMzYJcvOoQ8QWiIqS3hfk6gLhVlG57j5YNoZL2Rtc".
Definition TADO_SCOPE := "home.user".
Definition TADO_API := "https://my.tado.com/api/v2".

(** How a block of [AuthCheck] ends: with a [return], or by falling through
    to the statement after it. *)
Inductive Flow (A : Type) :=
  | Return (a : A)
  | Next.
Arguments Return {A} a.
Arguments Next {A}.

Section Client.
Context `{SecretCodec}.

Definition SaveRefreshToken (token : string) : M (option error) :=
  if len token =? 0 then mret (Some "Cannot save empty refresh token")
  else
    t ← get_t;
    w ← get_w;
    let encToken := TokenEncrypt token in
    let '(h, err) := WriteFile (host w) (now w) (refreshTokenPath t) encToken mode_0666 in
    put_w (set_host h w);;
    match err with
    | Some e => mret (Some e)
    | None => mret None
    end.

Definition GetRefreshToken (t : Tado) (w : World) : string * option error :=
  let '(fileInfo, err) := Stat (host w) (refreshTokenPath t) in
  match err with
  | Some e => ("", Some e)
  | None =>
      if negb (f_mode fileInfo =? mode_0600) && negb (String.eqb (GOOS (host w)) "windows")
      then ("", Some "refresh token cache is not properly protected")
      else if Before (Add (f_modTime fileInfo) freshness) (now w) then ("", None)
      else if Size fileInfo =? 0 then ("", None)
      else
        let '(token, err) := ReadFile (host w) (refreshTokenPath t) in
        match err with
        | Some e => ("", Some e)
        | None => (TokenDecrypt token, None)
        end
  end.

Definition HasRefreshToken (t : Tado) (w : World) : bool :=
  let '(fileInfo, err) := Stat (host w) (refreshTokenPath t) in
  match err with
  | Some _ => false
  | None =>
      if negb (f_mode fileInfo =? mode_0600) && negb (String.eqb (GOOS (host w)) "windows")
      then false
      else if Before (Add (f_modTime fileInfo) freshness) (now w) then false
      else if Size fileInfo =? 0 then false
      else true
  end.

(** The tail shared by [AquireToken] and [RefreshToken]: the answer of the
    token endpoint is checked, the new refresh token saved and the session
    installed. *)
Definition install_tokens (r : Response + error) : M (option error) :=
  match r with
  | inr err => mret (Some err)
  | inl tokenresponse =>
      if 4 <=? Z.quot (StatusCode tokenresponse) 100
      then
        let tadoError := fst (decode_TadoError (Body_ tokenresponse)) in
        mret (Some ("could not get token: " +:+ Description tadoError))
      else
        let tokens := fst (decode_TokenResponse (Body_ tokenresponse)) in
        err ← SaveRefreshToken (RefreshToken_ tokens);
        match err with
        | Some _ => mret (Some "Could not save refresh token")
        | None =>
            n1 ← time_Now;
            set_expires (Add n1 (dmul Second (ExpiresIn tokens)));;
            n2 ← time_Now;
            set_refresh (Add n2 (dmul Second (Z.quot (ExpiresIn tokens) 2)));;
            set_accessToken (AccessToken tokens);;
            mret None
        end
  end.

(** [http.NewRequest] returns no error for the constant method and URL. *)
Definition AquireToken : M (option error) :=
  t ← get_t;
  let params : gmap string string :=
    <["password" := password t]> (<["username" := Username t]>
    (<["grant_type" := "password"]> (<["scope" := TADO_SCOPE]>
    (<["client_secret" := TADO_CLIENTSECRET]> (<["client_id" := TADO_CLIENTID]> ∅))))) in
  r ← client_Do {| rq_method := "POST"; rq_url := TADO_TOKEN;
                   rq_authorization := None; rq_form := params |};
  install_tokens r.

Definition RefreshToken : M (option error) :=
  has ← read HasRefreshToken;
  if negb (has : bool) then mret (Some "No refresh token")
  else
    '(refreshToken, err) ← read GetRefreshToken;
    match err with
    | Some e => mret (Some e)
    | None =>
        let params : gmap string string :=
          <["refresh_token" := refreshToken]> (<["grant_type" := "refresh_token"]>
          (<["client_secret" := TADO_CLIENTSECRET]> (<["client_id" := TADO_CLIENTID]> ∅))) in
        r ← client_Do {| rq_method := "POST"; rq_url := TADO_TOKEN;
                         rq_authorization := None; rq_form := params |};
        install_tokens r
    end.

(** [if err != nil && t.expires.Before(time.Now()) { return err }] *)
Definition return_if_expired (err : option error) : M (Flow (option error)) :=
  match err with
  | None => mret Next
  | Some e =>
      t ← get_t;
      n ← time_Now;
      if Before (expires t) n then mret (Return (Some e)) else mret Next
  end.

(** [if err != nil { return err }] *)
Definition return_if_error (err : option error) : M (Flow (option error)) :=
  match err with
  | None => mret Next
  | Some e => mret (Return (Some e))
  end.

Definition AuthCheck : M (option error) :=
  t ← get_t;
  f1 ← (if 0 <? len (accessToken t) then
          n ← time_Now;
          if After (refresh t) n then mret (Return None)
          else
            has ← read HasRefreshToken;
            if (has : bool) then (err ← RefreshToken; return_if_expired err)
            else (err ← AquireToken; return_if_expired err)
        else mret Next);
  match f1 with
  | Return r => mret r
  | Next =>
      t ← get_t;
      f2 ← (if len (accessToken t) =? 0 then
              has ← read HasRefreshToken;
              if (has : bool) then (err ← RefreshToken; return_if_error err)
              else (err ← AquireToken; return_if_error err)
            else mret Next);
      match f2 with
      | Return r => mret r
      | Next =>
          t ← get_t;
          if len (accessToken t) =? 0 then mret (Some "No access token")
          else mret None
      end
  end.

Definition api_request (url : string) : M (Response + error) :=
  t ← get_t;
  client_Do {| rq_method := "GET"; rq_url := url;
               rq_authorization := Some ("Bearer " +:+ accessToken t);
               rq_form := ∅ |}.

Definition GetHome : M (option Home * option error) :=
  tell (EvCall "GetHome" 0);;
  err ← AuthCheck;
  match err with
  | Some e => mret (None, Some e)
  | None =>
      r ← api_request (TADO_API +:+ "/me");
      match r with
      | inr e => mret (None, Some e)
      | inl response =>
          if 4 <=? Z.quot (StatusCode response) 100
          then
            let '(tadoError, err) := decode_TadoError (Body_ response) in
            match err with
            | Some e => mret (None, Some e)
            | None => mret (None, Some (Description tadoError))
            end
          else
            let '(me, err) := decode_MeResponse (Body_ response) in
            match err with
            | Some e => mret (None, Some e)
            | None =>
                match Homes me with
                | home :: _ => mret (home, None)
                | [] => panic "index out of range [0] with length 0"
                end
            end
      end
  end.

Definition GetZoneStates (id : Z) : M (option ZoneStatesResponse * option error) :=
  tell (EvCall "GetZoneStates" id);;
  err ← AuthCheck;
  match err with
  | Some e => mret (None, Some e)
  | None =>
      r ← api_request (TADO_API +:+ "/homes/" +:+ Itoa id +:+ "/zoneStates");
      match r with
      | inr e => mret (None, Some e)
      | inl response =>
          if 4 <=? Z.quot (StatusCode response) 100
          then
            let '(tadoError, err) := decode_TadoError (Body_ response) in
            match err with
            | Some e => mret (None, Some e)
            | None => mret (None, Some (Description tadoError))
            end
          else
            let '(zoneStates, err) := decode_ZoneStatesResponse (Body_ response) in
            match err with
            | Some e => mret (None, Some e)
            | None => mret (Some zoneStates, None)
            end
      end
  end.

Definition GetZones (id : Z) : M (list Zone * option error) :=
  tell (EvCall "GetZones" id);;
  err ← AuthCheck;
  match err with
  | Some e => mret (@nil Zone, Some e)
  | None =>
      r ← api_request (TADO_API +:+ "/homes/" +:+ Itoa id +:+ "/zones");
      match r with
      | inr e => mret (@nil Zone, Some e)
      | inl response =>
          if 4 <=? Z.quot (StatusCode response) 100
          then
            let '(tadoError, err) := decode_TadoError (Body_ response) in
            match err with
            | Some e => mret (@nil Zone, Some e)
            | None => mret (@nil Zone, Some (Description tadoError))
            end
          else
            let '(zones, err) := decode_Zones (Body_ response) in
            match err with
            | Some e => mret (@nil Zone, Some e)
            | None => mret (zones, None)
            end
      end
  end.

End Client.

(** ** The collection cycle (package main) *)

(** The fields of [config.Config] that [collect] reads. The entries of
    [Collect] carry an [Id] and a [Name]. *)
Record Config := {
  Collect : list Home;
  Influx_Database : string;
}.

(** The package-level variables [zones], [points] and [lastSync]. A pointer
    in [points] is [nil] when the library refused the point. *)
Record Globals := {
  zones : gmap Z (gmap string string);
  points : list (option Point);
  lastSync : Time;
}.

(** [zones[home][zoneId]] of Go: the zero value when either key is missing. *)
Definition zone_lookup (zs : gmap Z (gmap string string)) (home : Z) (zoneId : string)
  : option string :=
  m ← zs !! home; m !! zoneId.

Definition zone_name (zs : gmap Z (gmap string string)) (home : Z) (zoneId : string) : string :=
  default "" (zone_lookup zs home zoneId).

(** [influx.Write(bps)]: the batch goes to the store, whose next answer
    arrives after its latency. *)
Definition influx_Write (database : string) (batch : list (option Point)) : M (option error) :=
  λ t w,
    match sink w with
    | [] =>
        let err := Some "connection refused" in
        Ok err t (emit (EvWrite database batch err) w)
    | r :: rest =>
        Ok (sk_err r) t
           {| host := host w; now := Add (now w) (sk_latency r); net := net w;
              sink := rest; trace := trace w ++ [EvWrite database batch (sk_err r)] |}
    end.

Section Collect.
Context `{SecretCodec} `{PointLibrary}.

(** The power percentage of a zone state, lines 78 to 86. *)
Definition power_of (act : ActivityDataPoints) : M float32 :=
  powerPc ← match AcPower_ act with
            | Some ac =>
                v ← deref (ac_Value ac);
                if String.eqb (ToUpper v) "ON" then mret f32_100 else mret f32_0
            | None => mret f32_0
            end;
  match HeatingPower_ act with
  | Some hp => deref (hp_Percentage hp)
  | None => mret powerPc
  end.

(** The body of the loop over the zone states of one home. *)
Definition collect_state (home : Home) (g : Globals) (entry : string * ZoneState)
  : M Globals :=
  let '(zoneId, state) := entry in
  let zoneName := zone_name (zones g) (Id home) zoneId in
  match InsideTemperature (SensorDataPoints_ state) with
  | None => mret g
  | Some temp =>
      ts ← deref (Timestamp temp);
      if Before ts (lastSync g) then mret g
      else
        let name := Name home +:+ "." +:+ zoneName in
        powerPc ← power_of (ActivityDataPoints_ state);
        let tags : gmap string string :=
          <["source" := "tado"]> (<["zoneName" := zoneName]> (<["zoneId" := zoneId]>
          (<["homeName" := Name home]> (<["homeId" := Itoa (Id home)]> ∅)))) in
        celsius ← deref (Celsius temp);
        humidity ← deref (Humidity_ (SensorDataPoints_ state));
        percentage ← deref (hum_Percentage humidity);
        let fields : gmap string float32 :=
          <["power" := powerPc]> (<["humidity" := percentage]>
          (<["temperature" := celsius]> ∅)) in
        ts' ← deref (Timestamp temp);
        let '(point, _) := NewPoint name tags fields ts' in
        mret {| zones := zones g; points := points g ++ [point]; lastSync := lastSync g |}
  end.

Fixpoint collect_states (home : Home) (g : Globals) (entries : list (string * ZoneState))
  : M Globals :=
  match entries with
  | [] => mret g
  | entry :: rest => g' ← collect_state home g entry; collect_states home g' rest
  end.

(** Lines 44 to 54: is the cached topology of the home enough for the
    zone ids of the fetched states? *)
Definition homefound (g : Globals) (home : Home) : bool :=
  bool_decide (is_Some (zones g !! Id home)).

Definition allzonesfound (g : Globals) (home : Home) (entries : list (string * ZoneState))
  : bool :=
  if homefound g home
  then forallb (λ entry : string * ZoneState,
                  bool_decide (is_Some (zone_lookup (zones g) (Id home) (fst entry)))) entries
  else true.

(** Lines 63 to 66: the new cache entry of a home. *)
Definition zones_of (newZones : list Zone) : gmap string string :=
  fold_left (λ m zone, <[Itoa (zone_Id zone) := zone_Name zone]> m) newZones ∅.

(** Lines 43 to 67: the topology of the home is fetched again when the
    cache does not cover the zone ids of the fetched states. The result
    [None] is the [continue] taken when the fetch fails. *)
Definition refresh_zones (g : Globals) (home : Home) (states : ZoneStatesResponse)
  : M (option Globals) :=
  if negb (homefound g home) || negb (allzonesfound g home (ZoneStates states))
  then
    '(newZones, err) ← GetZones (Id home);
    match err with
    | Some _ => mret None
    | None =>
        mret (Some {| zones := <[Id home := zones_of newZones]> (zones g);
                      points := points g; lastSync := lastSync g |})
    end
  else mret (Some g).

(** The body of the loop over the configured homes. *)
Definition collect_home (g : Globals) (home : Home) : M Globals :=
  '(states, err) ← GetZoneStates (Id home);
  match err with
  | Some _ => mret g
  | None =>
      states ← deref states;
      r ← refresh_zones g home states;
      match r with
      | None => mret g
      | Some g' => collect_states home g' (ZoneStates states)
      end
  end.

Fixpoint collect_homes (g : Globals) (homes : list Home) : M Globals :=
  match homes with
  | [] => mret g
  | home :: rest => g' ← collect_home g home; collect_homes g' rest
  end.

(** [collect]. [client.NewBatchPoints] with the precision ["s"] returns no
    error, so the batch is always written. *)
Definition collect (conf : Config) (g : Globals) : M Globals :=
  g' ← collect_homes g (Collect conf);
  err ← influx_Write (Influx_Database conf) (points g');
  match err with
  | Some _ => mret g'
  | None =>
      n ← time_Now;
      mret {| zones := zones g'; points := []; lastSync := n |}
  end.

End Collect.

(** ** Start-up and the sequence of cycles (package main) *)

(** How the start-up ends: the client can be made for the token cache at
    [path] on the disk [h], or [log.Fatalf] has ended the process. *)
Inductive Startup :=
  | Started (path : string) (h : Host)
  | Fatal (msg : string).

(** [os.Create]: the file is created, or truncated, for writing. *)
Definition Create (h : Host) (now_ : Time) (path : string) : Host * option error :=
  WriteFile h now_ path "" mode_0666.

(** [file.Chmod(mode)] on the file the process has just created: the
    permission bits are set, the content and its time stay. *)
Definition Chmod (h : Host) (path : string) (mode : Z) : Host :=
  {| files := alter (λ f, {| f_mode := mode; f_modTime := f_modTime f;
                             f_data := f_data f |}) path (files h);
     unreadable := unreadable h; unwritable := unwritable h;
     umask := umask h; GOOS := GOOS h |}.

(** Lines 229 to 249 of [main]: the path of the token cache defaults to
    the configuration's name with [.token]; a missing cache is created and
    given the mode 0600; an existing cache of another mode ends the
    process, except on Windows. *)
Definition token_cache (configname RefreshTokenPath : string) (h : Host) (now_ : Time)
  : Startup :=
  let path := if len RefreshTokenPath =? 0 then configname +:+ ".token"
              else RefreshTokenPath in
  let '(refreshTokenPath, err) := Stat h path in
  match err with
  | Some _ =>
      let '(h1, err) := Create h now_ path in
      match err with
      | Some _ => Fatal ("could not create file: " +:+ path)
      | None => Started path (Chmod h1 path mode_0600)
      end
  | None =>
      if negb (f_mode refreshTokenPath =? mode_0600) &&
         negb (String.eqb (GOOS h) "windows")
      then Fatal ("token cache should have 0600 mode: " +:+ path)
      else Started path h
  end.

(** The time the process spends waiting for the next tick. *)
Definition wait (d : Duration) : M unit := λ t w,
  Ok tt t {| host := host w; now := Add (now w) d; net := net w; sink := sink w;
             trace := trace w |}.

Section Cycles.
Context `{SecretCodec} `{PointLibrary}.

(** The loop of [Manage], lines 190 to 201, up to the signal that ends it:
    one collection for each tick, after the wait for it. *)
Fixpoint ticks (conf : Config) (waits : list Duration) (g : Globals) : M Globals :=
  match waits with
  | [] => mret g
  | d :: rest => wait d;; g' ← collect conf g; ticks conf rest g'
  end.

(** Lines 187 to 201: the initial collection, then the loop. *)
Definition Manage_cycles (conf : Config) (waits : list Duration) (g : Globals) : M Globals :=
  g' ← collect conf g; ticks conf waits g'.

End Cycles.

(** ** Predicates of the properties *)

(** [wp E m t w Q]: started on [t] and [w], the computation [m] ends with a
    result and a state that satisfy [Q]; a panic counts as [E]. With [False]
    for [E] the computation does not panic. *)
Definition wp {A} (E : Prop) (m : M A) (t : Tado) (w : World)
    (Q : A → Tado → World → Prop) : Prop :=
  match m t w with
  | Ok a t' w' => Q a t' w'
  | Panic _ => E
  end.

(** The trace of [w'] is the trace of [w] followed by events that satisfy [P]. *)
Definition extends (P : Event → Prop) (w w' : World) : Prop :=
  ∃ evs, trace w' = trace w ++ evs ∧ Forall P evs.

(** The world in which a request left: the disk and the instant recorded
    with it. *)
Definition snapshot (h : Host) (at_ : Time) : World :=
  {| host := h; now := at_; net := []; sink := []; trace := [] |}.

Definition is_password_grant (rq : Request) : Prop :=
  rq_form rq !! "grant_type" = Some "password".

(** An event of the credential manager: a request to the token endpoint,
    and with the password grant only when the disk held no usable
    credential as it left. *)
Definition token_event `{SecretCodec} (t : Tado) (ev : Event) : Prop :=
  match ev with
  | EvSent rq h at_ =>
      rq_url rq = TADO_TOKEN ∧
      (is_password_grant rq → HasRefreshToken t (snapshot h at_) = false)
  | _ => False
  end.

(** The number of topology fetches ([GetZones]) in a trace. *)
Definition is_fetch (ev : Event) : bool :=
  match ev with
  | EvCall method _ => String.eqb method "GetZones"
  | _ => false
  end.

Fixpoint fetches (tr : list Event) : nat :=
  match tr with
  | [] => 0%nat
  | ev :: rest => ((if is_fetch ev then 1 else 0) + fetches rest)%nat
  end.

(** The cache of a home is stale for the fetched states: it has no entry,
    or the entry lacks the id of a fetched zone. *)
Definition cache_stale (g : Globals) (home : Home) (states : ZoneStatesResponse) : Prop :=
  zones g !! Id home = None ∨
  ∃ zoneId state, (zoneId, state) ∈ ZoneStates states ∧
                  zone_lookup (zones g) (Id home) zoneId = None.

(** A pointer of the batch that holds a point holds one not before [mark]. *)
Definition not_before (mark : Time) (p : option Point) : Prop :=
  match p with
  | Some pt => mark ≤ pt_time pt
  | None => True
  end.

(** The trust precondition of the credential file: owner-only read and
    write, or a platform without permission bits. *)
Definition protected (h : Host) (f : File) : Prop :=
  f_mode f = mode_0600 ∨ GOOS h = "windows".

(** The file was last written longer ago than the freshness window. *)
Definition stale_file (f : File) (now_ : Time) : Prop :=
  f_modTime f + freshness < now_.

(** The renewal attempt of [AuthCheck]: a refresh when the disk holds a
    usable credential, the password grant otherwise. *)
Definition renewal_attempt `{SecretCodec} : M (option error) :=
  λ t w, if HasRefreshToken t w then RefreshToken t w else AquireToken t w.

(** The result of a computation that ended without a panic. *)
Definition answer {A} (o : Outcome A) : option A :=
  match o with
  | Ok a _ _ => Some a
  | Panic _ => None
  end.

Definition final_world {A} (o : Outcome A) : option World :=
  match o with
  | Ok _ _ w => Some w
  | Panic _ => None
  end.

Definition final_client {A} (o : Outcome A) : option Tado :=
  match o with
  | Ok _ t _ => Some t
  | Panic _ => None
  end.

Definition world_or {A} (d : World) (o : Outcome A) : World :=
  default d (final_world o).

Definition client_or {A} (d : Tado) (o : Outcome A) : Tado :=
  default d (final_client o).

(** ** Predicates of the further properties *)

(** No answer of a remote service takes negative time. *)
Definition calm (w : World) : Prop :=
  Forall (λ r, 0 ≤ latency r) (net w) ∧ Forall (λ r, 0 ≤ sk_latency r) (sink w).

(** The disk [h'] differs from [h] at most in the file at [path], which,
    if it was there, is still there with its mode. *)
Definition cache_kept (path : string) (h h' : Host) : Prop :=
  GOOS h' = GOOS h ∧ umask h' = umask h ∧
  unreadable h' = unreadable h ∧ unwritable h' = unwritable h ∧
  (∀ p, p ≠ path → files h' !! p = files h !! p) ∧
  (∀ f, files h !! path = Some f →
        ∃ f', files h' !! path = Some f' ∧ f_mode f' = f_mode f).

(** What every operation of the client and of the cycle keeps: the account
    and the path of the client, the disk but for the token cache, the order
    of the services' answers, the trace so far, and the direction of time. *)
Definition frame (t : Tado) (w : World) (t' : Tado) (w' : World) : Prop :=
  refreshTokenPath t' = refreshTokenPath t ∧
  Username t' = Username t ∧ password t' = password t ∧
  cache_kept (refreshTokenPath t) (host w) (host w') ∧
  (∃ used, net w = used ++ net w') ∧
  (∃ used, sink w = used ++ sink w') ∧
  (∃ evs, trace w' = trace w ++ evs) ∧
  (calm w → now w ≤ now w').

(** [m] relates the state it starts on to the state it ends on by [R]. *)
Definition respects {A} (E : Prop) (R : Tado → World → Tado → World → Prop) (m : M A)
  : Prop :=
  ∀ t w, wp E m t w (λ _ t' w', R t w t' w').

(** The token cache at [path] passes the mode check of the store. *)
Definition trusted (path : string) (h : Host) : Prop :=
  ∃ f, files h !! path = Some f ∧ protected h f.




(** The indicator reads "ON", in any letter case. *)
Definition reads_on (v : string) : bool :=
  bool_decide (v ∈ ["ON"; "On"; "oN"; "on"]).

(** The power percentage of a point, as a function of the value of the AC
    indicator and of the heating power, where present. *)
Definition derived_power (ac : option string) (heating : option float32) : float32 :=
  match heating with
  | Some p => p
  | None =>
      match ac with
      | Some v => if reads_on v then f32_100 else f32_0
      | None => f32_0
      end
  end.

(** The tags and the fields of the point of a zone, lines 89 to 100. *)
Definition point_tags (home : Home) (zoneId zoneName : string) : gmap string string :=
  <["source" := "tado"]> (<["zoneName" := zoneName]> (<["zoneId" := zoneId]>
  (<["homeName" := Name home]> (<["homeId" := Itoa (Id home)]> ∅)))).

Definition point_fields (temperature humidity power : float32) : gmap string float32 :=
  <["power" := power]> (<["humidity" := humidity]> (<["temperature" := temperature]> ∅)).
(** The session that [install_tokens] leaves for the tokens of an answer. *)
Definition installed (t : Tado) (now_ : Time) (tokens : TokenResponse) : Tado :=
  {| Username := Username t; password := password t;
     refreshTokenPath := refreshTokenPath t;
     accessToken := AccessToken tokens;
     expires := Add now_ (dmul Second (ExpiresIn tokens));
     refresh := Add now_ (dmul Second (Z.quot (ExpiresIn tokens) 2)) |}.


(** The request of the password grant, for the account of the client. *)
Definition password_request (t : Tado) : Request :=
  {| rq_method := "POST"; rq_url := TADO_TOKEN; rq_authorization := None;
     rq_form := <["password" := password t]> (<["username" := Username t]>
                (<["grant_type" := "password"]> (<["scope" := TADO_SCOPE]>
                (<["client_secret" := TADO_CLIENTSECRET]>
                (<["client_id" := TADO_CLIENTID]> ∅))))) |}.

(** The request of the refresh grant, for a stored secret. *)
Definition refresh_request (secret : string) : Request :=
  {| rq_method := "POST"; rq_url := TADO_TOKEN; rq_authorization := None;
     rq_form := <["refresh_token" := secret]> (<["grant_type" := "refresh_token"]>
                (<["client_secret" := TADO_CLIENTSECRET]>
                (<["client_id" := TADO_CLIENTID]> ∅))) |}.

(** The world once [rq] has left and the answer [r] has arrived. *)
Definition answered (rq : Request) (r : Reply) (rest : list Reply) (w : World) : World :=
  {| host := host w; now := Add (now w) (latency r); net := rest; sink := sink w;
     trace := trace w ++ [EvSent rq (host w) (now w)] |}.




(** ** Concrete inputs *)

Definition linux_host (fs : gmap string File) : Host :=
  {| files := fs; unreadable := ∅; unwritable := ∅; umask := 18; GOOS := "linux" |}.

Definition demo_client : Tado := NewTado "user" "secret" "gotadoflux.token".

(** A world with the given disk, instant and service answers. *)
Definition world_of (h : Host) (now_ : Time) (answers : list Reply) (stores : list SinkReply)
  : World :=
  {| host := h; now := now_; net := answers; sink := stores; trace := [] |}.

(** A credential file as [main] creates it and a renewal leaves it. *)
Definition token_file (modTime : Time) (data : string) : File :=
  {| f_mode := mode_0600; f_modTime := modTime; f_data := data |}.

Definition demo_tokens : TokenResponse :=
  {| AccessToken := "access-1"; TokenType := "bearer"; RefreshToken_ := "renew-1";
     ExpiresIn := 600; Scope := TADO_SCOPE; Jti := "" |}.

Definition ok_reply (b : Body) : Reply :=
  {| latency := 5; result := inl {| StatusCode := 200; Body_ := b |} |}.

Definition invalid_grant : Reply :=
  {| latency := 0;
     result := inl {| StatusCode := 400;
                      Body_ := BError {| Error := "invalid_grant";
                                         Description := "invalid_grant" |} |} |}.

(** 21.5, 30, 45 and 100 as binary32 values. *)
Definition f32_21_5 : float32 := S754_finite false 11272192 (-19).
Definition f32_30 : float32 := S754_finite false 15728640 (-19).
Definition f32_45 : float32 := S754_finite false 11796480 (-18).

(** The zone state of scenario A, with an AC indicator [ac] beside it. *)
Definition lounge_state (ac : option AcPower) : ZoneState :=
  {| SensorDataPoints_ :=
       {| InsideTemperature := Some {| Celsius := Some f32_21_5;
                                       Timestamp := Some (100 * Second) |};
          Humidity_ := Some {| hum_Percentage := Some f32_45;
                               hum_Timestamp := Some (100 * Second) |} |};
     ActivityDataPoints_ :=
       {| AcPower_ := ac;
          HeatingPower_ := Some {| hp_Percentage := Some f32_30;
                                   hp_Timestamp := Some (100 * Second) |} |} |}.

(** The same state without a humidity reading. *)
Definition dry_state : ZoneState :=
  {| SensorDataPoints_ :=
       {| InsideTemperature := Some {| Celsius := Some f32_21_5;
                                       Timestamp := Some (100 * Second) |};
          Humidity_ := None |};
     ActivityDataPoints_ :=
       {| AcPower_ := None;
          HeatingPower_ := Some {| hp_Percentage := Some f32_30;
                                   hp_Timestamp := Some (100 * Second) |} |} |}.

Definition home_1 : Home := {| Id := 1; Name := "Home" |}.
Definition lounge : Zone := {| zone_Id := 10; zone_Name := "Lounge" |}.

Definition demo_conf : Config :=
  {| Collect := [home_1]; Influx_Database := "tado" |}.

Definition fresh_globals : Globals :=
  {| zones := ∅; points := []; lastSync := 0 |}.

(** The point scenario A expects. *)
Definition lounge_point : Point :=
  {| pt_name := "Home.Lounge";
     pt_tags := <["source" := "tado"]> (<["zoneName" := "Lounge"]> (<["zoneId" := "10"]>
                (<["homeName" := "Home"]> (<["homeId" := "1"]> ∅))));
     pt_fields := <["power" := f32_30]> (<["humidity" := f32_45]>
                  (<["temperature" := f32_21_5]> ∅));
     pt_time := 100 * Second |}.

(** A first cycle: the password grant, the states of home 1, its zones,
    and a store that takes the batch. *)
Definition first_cycle (st : ZoneState) : World :=
  world_of (linux_host ∅) (1000 * Second)
    [ok_reply (BTokens demo_tokens);
     ok_reply (BZoneStates {| ZoneStates := [("10", st)] |});
     ok_reply (BZones [lounge])]
    [{| sk_latency := 3; sk_err := None |}].

(** A session acquired at instant 400 s for 600 s: renewal is due from
    700 s on, and the session expires at 1000 s. *)
Definition old_session : Tado :=
  {| Username := "user"; password := "secret";
     refreshTokenPath := "gotadoflux.token";
     accessToken := "access-0"; expires := 1000 * Second; refresh := 700 * Second |}.

(** The disk after that session was acquired. *)
Definition disk_with_token : Host :=
  linux_host {[ "gotadoflux.token" := token_file (400 * Second) (mask "renew-0") ]}.

(** The token endpoint refuses the renewal at instant [now_]. *)
Definition refused_renewal (now_ : Time) : World :=
  world_of disk_with_token now_ [invalid_grant] [].

(** The disk of [disk_with_token], about to take the secret "renew-1" at
    500 s, the world after the save, and the same world an hour later. *)
Definition before_save : World := world_of disk_with_token (500 * Second) [] [].

Definition after_save : World :=
  world_or before_save (SaveRefreshToken (H := masking_codec) "renew-1" demo_client before_save).

Definition hour_after_save : World :=
  {| host := host after_save; now := now after_save + Hour; net := []; sink := [];
     trace := trace after_save |}.

(** The loop over the homes in the first cycle of scenario A. *)
Definition first_states : Outcome (option ZoneStatesResponse * option error) :=
  GetZoneStates (H := masking_codec) 1 demo_client (first_cycle (lounge_state None)).

Definition first_zones : Outcome (list Zone * option error) :=
  GetZones (H := masking_codec) 1
    (client_or demo_client first_states)
    (world_or (first_cycle (lounge_state None)) first_states).

Definition first_loop : Outcome Globals :=
  collect_homes (H := masking_codec) (H0 := lenient_library) fresh_globals (Collect demo_conf)
    demo_client (first_cycle (lounge_state None)).

(** A valid session asks for the account, which has no home. *)
Definition account_without_home : World :=
  world_of disk_with_token (500 * Second) [ok_reply (BMe {| Homes := [] |})] [].

(** ** Concrete inputs of the further properties *)

(** The disk after the start-up of [main] found no token cache. *)
Definition started_disk : Host :=
  match token_cache "gotadoflux" "" (linux_host ∅) 0 with
  | Started _ h => h
  | Fatal _ => linux_host ∅
  end.

(** The services of [first_cycle] for a process that has just started. *)
Definition started_cycle : World :=
  world_of started_disk (1000 * Second)
    [ok_reply (BTokens demo_tokens);
     ok_reply (BZoneStates {| ZoneStates := [("10", lounge_state None)] |});
     ok_reply (BZones [lounge])]
    [{| sk_latency := 3; sk_err := None |}].

(** The initial collection and one tick a minute later. *)
Definition two_cycles : Outcome Globals :=
  Manage_cycles (H := masking_codec) (H0 := lenient_library) demo_conf [60 * Second]
    fresh_globals demo_client started_cycle.

(** The password grant of the new process. *)
Definition first_grant : Outcome (option error) :=
  AquireToken (H := masking_codec) demo_client started_cycle.


(** The zones of home 1 are in the cache. *)
Definition known_zones : Globals :=
  {| zones := {[ 1 := {[ "10" := "Lounge" ]} ]}; points := []; lastSync := 0 |}.
(** ** Rules of [wp] and of trace extension *)

(** Unfolds the binds of a computation applied to a state. *)
Ltac run_steps := repeat (progress (unfold mbind, M_bind, mret, M_ret; cbn)).

Lemma wp_bind {A B} E (m : M A) (k : A → M B) t w Q :
  wp E m t w (λ a t' w', wp E (k a) t' w' Q) → wp E (m ≫= k) t w Q.
Proof. unfold wp, mbind, M_bind. by destruct (m t w). Qed.

Lemma wp_ret {A} E (a : A) t w (Q : A → Tado → World → Prop) :
  Q a t w → wp E (mret a) t w Q.
Proof. done. Qed.

Lemma wp_mono {A} E (m : M A) t w (Q Q' : A → Tado → World → Prop) :
  wp E m t w Q → (∀ a t' w', Q a t' w' → Q' a t' w') → wp E m t w Q'.
Proof. unfold wp. destruct (m t w); auto. Qed.

Lemma wp_total {A} E (m : M A) t w Q : wp False m t w Q → wp E m t w Q.
Proof. unfold wp. by destruct (m t w). Qed.

Lemma wp_ok {A} (m : M A) t w Q :
  wp False m t w Q → ∃ a t' w', m t w = Ok a t' w' ∧ Q a t' w'.
Proof. unfold wp. destruct (m t w); [eauto | done]. Qed.

Lemma wp_run {A} E (m : M A) t w Q a t' w' :
  wp E m t w Q → m t w = Ok a t' w' → Q a t' w'.
Proof. unfold wp. intros Hwp Heq. by rewrite Heq in Hwp. Qed.

Lemma extends_refl P w : extends P w w.
Proof. exists []. by rewrite app_nil_r. Qed.

Lemma extends_trans P w1 w2 w3 : extends P w1 w2 → extends P w2 w3 → extends P w1 w3.
Proof.
  intros (e1 & H1 & F1) (e2 & H2 & F2). exists (e1 ++ e2).
  split; [by rewrite H2, H1, app_assoc | by apply Forall_app].
Qed.

Lemma extends_one (P : Event → Prop) w w' e :
  trace w' = trace w ++ [e] → P e → extends P w w'.
Proof. intros Htr He. exists [e]. split; [done | by constructor]. Qed.

Lemma extends_same P w w' : trace w' = trace w → extends P w w'.
Proof. intros Htr. exists []. by rewrite app_nil_r. Qed.

Section ClientFacts.
Context `{SecretCodec}.

Lemma HasRefreshToken_depends t t' w w' :
  refreshTokenPath t' = refreshTokenPath t → host w' = host w → now w' = now w →
  HasRefreshToken t' w' = HasRefreshToken t w.
Proof. unfold HasRefreshToken. by intros -> -> ->. Qed.

Lemma SaveRefreshToken_spec token t w :
  wp False (SaveRefreshToken token) t w (λ err t' w',
    t' = t ∧ trace w' = trace w ∧ now w' = now w ∧ net w' = net w ∧ sink w' = sink w).
Proof.
  unfold wp, SaveRefreshToken, mbind, M_bind, mret, M_ret, get_t, get_w, put_w.
  repeat case_match; simplify_eq/=; done.
Qed.

Lemma install_tokens_spec r t w :
  wp False (install_tokens r) t w (λ err t' w',
    refreshTokenPath t' = refreshTokenPath t ∧ (is_Some err → t' = t) ∧
    trace w' = trace w ∧ now w' = now w).
Proof.
  unfold install_tokens. repeat case_match; try done.
  apply wp_bind.
  apply (wp_mono _ _ _ _ _ _ (SaveRefreshToken_spec _ t w)).
  intros err t' w' (-> & Htr & Hnow & _). destruct err; [done |].
  cbn. repeat split; try done.
Qed.

Lemma AquireToken_spec t w :
  wp False AquireToken t w (λ err t' w',
    refreshTokenPath t' = refreshTokenPath t ∧ (is_Some err → t' = t) ∧
    ∃ rq, trace w' = trace w ++ [EvSent rq (host w) (now w)] ∧
          rq_url rq = TADO_TOKEN ∧ is_password_grant rq).
Proof.
  unfold AquireToken. apply wp_bind. cbn. apply wp_bind.
  unfold wp at 1, client_Do. 
  destruct (net (emit _ w)) as [|r rest] eqn:Hnet.
  - cbn. repeat split; try done. eexists. split; [done|]. split; [done|]. done.
  - eapply wp_mono; [apply install_tokens_spec|].
    cbn. intros err t' w' (? & ? & -> & ?). repeat split; try done.
    eexists. split; [done|]. split; [done|]. done.
Qed.

Lemma RefreshToken_spec t w :
  wp False RefreshToken t w (λ err t' w',
    refreshTokenPath t' = refreshTokenPath t ∧ (is_Some err → t' = t) ∧
    (trace w' = trace w ∨
     ∃ rq, trace w' = trace w ++ [EvSent rq (host w) (now w)] ∧
           rq_url rq = TADO_TOKEN ∧ rq_form rq !! "grant_type" = Some "refresh_token")).
Proof.
  unfold RefreshToken. apply wp_bind. cbn.
  destruct (HasRefreshToken t w); cbn; [|by auto].
  apply wp_bind. cbn. destruct (GetRefreshToken t w) as [tok [e|]]; cbn; [by auto|].
  apply wp_bind. unfold wp at 1, client_Do.
  destruct (net (emit _ w)) as [|r rest] eqn:Hnet.
  - cbn. repeat split; try done. right. eexists. split; [done|]. split; [done|]. done.
  - eapply wp_mono; [apply install_tokens_spec|].
    cbn. intros err t' w' (? & ? & -> & ?). repeat split; try done.
    right. eexists. split; [done|]. split; [done|]. done.
Qed.

Lemma return_if_expired_spec err t w :
  wp False (return_if_expired err) t w (λ _ t' w', t' = t ∧ w' = w).
Proof.
  unfold return_if_expired. destruct err as [e|]; [|done].
  do 2 (apply wp_bind; cbn). by destruct (Before (expires t) (now w)).
Qed.

Lemma return_if_error_spec err t w :
  wp False (return_if_error err) t w (λ _ t' w', t' = t ∧ w' = w).
Proof. unfold return_if_error. by destruct err. Qed.

Lemma renewal_spec (k : option string → M (Flow (option string))) t0 t w :
  refreshTokenPath t = refreshTokenPath t0 →
  (∀ err t w, wp False (k err) t w (λ _ t' w', t' = t ∧ w' = w)) →
  wp False (has ← read HasRefreshToken;
            if (has : bool) then (err ← RefreshToken; k err)
            else (err ← AquireToken; k err)) t w
    (λ _ t' w', refreshTokenPath t' = refreshTokenPath t0 ∧ extends (token_event t0) w w').
Proof.
  intros Hpath Hk. apply wp_bind. cbn.
  destruct (HasRefreshToken t w) eqn:Hhas; apply wp_bind.
  - eapply wp_mono; [apply RefreshToken_spec|].
    intros err t1 w1 (Hp & _ & Htr). eapply wp_mono; [apply Hk|].
    intros _ ? ? [-> ->]. split; [congruence|].
    destruct Htr as [Htr | (rq & Htr & Hurl & Hgrant)].
    + by apply extends_same.
    + eapply extends_one; [done|]. split; [done|].
      unfold is_password_grant. by rewrite Hgrant.
  - eapply wp_mono; [apply AquireToken_spec|].
    intros err t1 w1 (Hp & _ & rq & Htr & Hurl & Hgrant). eapply wp_mono; [apply Hk|].
    intros _ ? ? [-> ->]. split; [congruence|].
    eapply extends_one; [done|]. split; [done|]. intros _.
    rewrite <- Hhas. by apply HasRefreshToken_depends.
Qed.

Lemma AuthCheck_spec t w :
  wp False AuthCheck t w (λ _ t' w',
    refreshTokenPath t' = refreshTokenPath t ∧ extends (token_event t) w w').
Proof.
  unfold AuthCheck. apply wp_bind. cbn. apply wp_bind.
  eapply wp_mono with (Q := λ _ t' w',
    refreshTokenPath t' = refreshTokenPath t ∧ extends (token_event t) w w').
  { destruct (0 <? len (accessToken t)); [|split; [done|apply extends_refl]].
    apply wp_bind. cbn. destruct (After (refresh t) (now w)).
    - split; [done|apply extends_refl].
    - apply renewal_spec; [done|apply return_if_expired_spec]. }
  intros [r|] t1 w1 [Hp1 He1]; [done|].
  apply wp_bind. cbn. apply wp_bind.
  eapply wp_mono with (Q := λ _ t' w',
    refreshTokenPath t' = refreshTokenPath t ∧ extends (token_event t) w w').
  { destruct (len (accessToken t1) =? 0); [|done].
    eapply wp_mono; [apply (renewal_spec _ t); [done|apply return_if_error_spec]|].
    intros _ t2 w2 [Hp2 He2]. split; [done|]. by eapply extends_trans. }
  intros [r|] t2 w2 [Hp2 He2]; [done|].
  apply wp_bind. cbn. by case_match.
Qed.
End ClientFacts.

(** ** The API calls and the count of topology fetches *)

Lemma fetches_app tr1 tr2 : fetches (tr1 ++ tr2) = (fetches tr1 + fetches tr2)%nat.
Proof. induction tr1 as [|ev tr1 IH]; simpl; [done | rewrite IH; lia]. Qed.

Lemma fetches_quiet (P : Event → Prop) w w' :
  (∀ ev, P ev → is_fetch ev = false) → extends P w w' →
  fetches (trace w') = fetches (trace w).
Proof.
  intros HP (evs & -> & Hall). rewrite fetches_app.
  assert (fetches evs = 0%nat) as ->; [|lia].
  induction Hall as [|ev evs Hev _ IH]; simpl; [done|]. by rewrite (HP _ Hev), IH.
Qed.

Section ApiFacts.
Context `{SecretCodec}.

Lemma token_event_quiet t ev : token_event t ev → is_fetch ev = false.
Proof. by destruct ev. Qed.

Lemma AuthCheck_quiet t w :
  wp False AuthCheck t w (λ _ t' w',
    refreshTokenPath t' = refreshTokenPath t ∧ fetches (trace w') = fetches (trace w)).
Proof.
  eapply wp_mono; [apply AuthCheck_spec|]. intros _ t' w' [Hp He]. split; [done|].
  eapply fetches_quiet; [apply token_event_quiet | done].
Qed.

Lemma api_request_spec url t w :
  wp False (api_request url) t w (λ _ t' w',
    t' = t ∧ fetches (trace w') = fetches (trace w)).
Proof.
  unfold api_request. apply wp_bind. cbn. unfold wp, client_Do.
  destruct (net (emit _ w)); cbn; rewrite fetches_app; simpl; split; (done || lia).
Qed.

(** After the call is recorded and the session checked, an API call adds
    no topology fetch of its own. *)
Lemma api_call_quiet {A} (k : option string → M A) (n : nat) ev t w :
  fetches [ev] = n →
  (∀ err t w, wp False (k err) t w (λ _ t' w',
     refreshTokenPath t' = refreshTokenPath t ∧ fetches (trace w') = fetches (trace w))) →
  wp False (tell ev;; err ← AuthCheck; k err) t w (λ _ t' w',
    refreshTokenPath t' = refreshTokenPath t ∧
    fetches (trace w') = (fetches (trace w) + n)%nat).
Proof.
  intros Hn Hk. apply wp_bind. cbn. apply wp_bind.
  eapply wp_mono; [apply AuthCheck_quiet|]. intros err t1 w1 [Hp1 Hf1].
  eapply wp_mono; [apply Hk|]. intros _ t2 w2 [Hp2 Hf2]. split; [congruence|].
  rewrite Hf2, Hf1. cbn. by rewrite fetches_app, Hn.
Qed.

Lemma GetZoneStates_spec id t w :
  wp False (GetZoneStates id) t w (λ r t' w',
    refreshTokenPath t' = refreshTokenPath t ∧
    fetches (trace w') = fetches (trace w) ∧
    (snd r = None → is_Some (fst r))).
Proof.
  unfold GetZoneStates. apply wp_bind. cbn. apply wp_bind.
  eapply wp_mono; [apply AuthCheck_quiet|]. intros err t1 w1 [Hp1 Hf1].
  assert (fetches (trace w1) = fetches (trace w)) as Hf.
  { rewrite Hf1. cbn. rewrite fetches_app. simpl. lia. }
  destruct err; [done|]. apply wp_bind.
  eapply wp_mono; [apply api_request_spec|]. intros r t2 w2 [-> Hf2].
  rewrite <- Hf, <- Hf2.
  repeat case_match; simplify_eq/=; apply wp_ret; naive_solver.
Qed.

Lemma GetZones_spec id t w :
  wp False (GetZones id) t w (λ r t' w',
    refreshTokenPath t' = refreshTokenPath t ∧
    fetches (trace w') = S (fetches (trace w))).
Proof.
  unfold GetZones. eapply wp_mono; [apply (api_call_quiet _ 1)|]; [done| |].
  - intros err t1 w1. destruct err; [done|]. apply wp_bind.
    eapply wp_mono; [apply api_request_spec|]. intros r t2 w2 [-> Hf2].
    repeat case_match; simplify_eq/=; by apply wp_ret.
  - intros r t' w' [Hp Hf]. split; [done|]. rewrite Hf. lia.
Qed.

End ApiFacts.

(** ** The loops of the cycle *)

Section CollectFacts.
Context `{SecretCodec} `{PointLibrary}.

Lemma deref_spec {A} E (p : option A) t w (Q : A → Tado → World → Prop) :
  (∀ a, p = Some a → Q a t w) → (p = None → E) → wp E (deref p) t w Q.
Proof. destruct p; unfold wp; cbn; auto. Qed.

Lemma power_of_spec act t w :
  wp True (power_of act) t w (λ _ t' w', t' = t ∧ w' = w).
Proof.
  unfold power_of. apply wp_bind.
  eapply wp_mono with (Q := λ _ t' w', t' = t ∧ w' = w).
  - destruct (AcPower_ act) as [ac|]; [|done]. apply wp_bind.
    apply deref_spec; [|done]. intros v _. by case_match.
  - intros p ? ? [-> ->]. destruct (HeatingPower_ act) as [hp|]; [|done].
    by apply deref_spec.
Qed.

(** One zone state leaves the batch as it is or adds one pointer, and then
    the temperature of the state is present with a time stamp that is not
    before the watermark. *)
Lemma collect_state_spec home g zoneId state t w :
  wp True (collect_state home g (zoneId, state)) t w (λ g' t' w',
    t' = t ∧ w' = w ∧ zones g' = zones g ∧ lastSync g' = lastSync g ∧
    (g' = g ∨
     ∃ temp ts p,
       InsideTemperature (SensorDataPoints_ state) = Some temp ∧
       Timestamp temp = Some ts ∧ lastSync g ≤ ts ∧
       points g' = points g ++ [p] ∧
       ∀ pt, p = Some pt → pt_time pt = ts)).
Proof.
  unfold collect_state.
  destruct (InsideTemperature (SensorDataPoints_ state)) as [temp|] eqn:Htemp;
    [|apply wp_ret; auto 6].
  apply wp_bind, deref_spec; [|done]. intros ts Hts.
  destruct (Before ts (lastSync g)) eqn:Hbefore; [apply wp_ret; auto 6|].
  apply wp_bind. eapply wp_mono; [apply power_of_spec|]. intros powerPc ? ? [-> ->].
  apply wp_bind, deref_spec; [|done]. intros celsius _.
  apply wp_bind, deref_spec; [|done]. intros humidity _.
  apply wp_bind, deref_spec; [|done]. intros percentage _.
  apply wp_bind, deref_spec; [|done]. intros ts' Hts'.
  unfold NewPoint. assert (ts' = ts) as -> by congruence.
  apply Z.ltb_ge in Hbefore.
  destruct (NewPoint_check _ _ _ _); apply wp_ret; cbn;
    (do 4 (split; [done|])); right; exists temp, ts; eexists;
    (do 4 (split; [done|])); by intros pt [= <-].
Qed.

Lemma collect_states_spec home entries g t w :
  wp True (collect_states home g entries) t w (λ g' t' w',
    t' = t ∧ w' = w ∧ zones g' = zones g ∧ lastSync g' = lastSync g ∧
    ∃ new, points g' = points g ++ new ∧ Forall (not_before (lastSync g)) new).
Proof.
  revert g. induction entries as [|[zoneId state] rest IH]; intros g.
  - apply wp_ret. do 4 (split; [done|]). exists []. by rewrite app_nil_r.
  - cbn [collect_states]. apply wp_bind.
    eapply wp_mono; [apply collect_state_spec|].
    intros g1 ? ? (-> & -> & Hz1 & Hl1 & Hp1).
    eapply wp_mono; [apply IH|].
    intros g2 ? ? (-> & -> & Hz2 & Hl2 & new & Hp2 & Hall).
    do 2 (split; [done|]). split; [congruence|]. split; [congruence|].
    rewrite Hl1 in Hall.
    destruct Hp1 as [-> | (temp & ts & p & _ & _ & Hle & Hp1 & Htime)]; [by exists new|].
    exists (p :: new). split; [by rewrite Hp2, Hp1, <- app_assoc|].
    constructor; [|done]. destruct p as [pt|]; [|done]. cbn. by rewrite (Htime pt).
Qed.

Lemma refresh_zones_keeps g home states t w :
  wp True (refresh_zones g home states) t w (λ r _ _,
    ∀ g', r = Some g' → points g' = points g ∧ lastSync g' = lastSync g).
Proof.
  unfold refresh_zones. case_match; [|apply wp_ret; by intros g' [= <-]].
  apply wp_bind. apply wp_total.
  eapply wp_mono; [apply GetZones_spec|]. intros [newZones [e|]] t1 w1 _.
  - apply wp_ret. by intros g' [=].
  - apply wp_ret. by intros g' [= <-].
Qed.

Lemma collect_home_spec g home t w :
  wp True (collect_home g home) t w (λ g' _ _,
    lastSync g' = lastSync g ∧
    ∃ new, points g' = points g ++ new ∧ Forall (not_before (lastSync g)) new).
Proof.
  assert (∀ t w, wp True (mret g) t w (λ g' _ _, lastSync g' = lastSync g ∧
    ∃ new, points g' = points g ++ new ∧ Forall (not_before (lastSync g)) new)) as Hsame.
  { intros. apply wp_ret. split; [done|]. exists []. by rewrite app_nil_r. }
  unfold collect_home. apply wp_bind. apply wp_total.
  eapply wp_mono; [apply GetZoneStates_spec|]. intros [states [e|]] t1 w1 _; [apply Hsame|].
  apply wp_bind, deref_spec; [|done]. intros st _. apply wp_bind.
  eapply wp_mono; [apply refresh_zones_keeps|]. intros [g1|] t2 w2 Hkeep; [|apply Hsame].
  destruct (Hkeep g1 eq_refl) as [Hp Hl].
  eapply wp_mono; [apply collect_states_spec|].
  intros g2 ? ? (_ & _ & _ & Hl2 & new & Hp2 & Hall).
  split; [congruence|]. exists new. split; [congruence|]. by rewrite <- Hl.
Qed.

Lemma collect_homes_spec homes g t w :
  wp True (collect_homes g homes) t w (λ g' _ _,
    lastSync g' = lastSync g ∧
    ∃ new, points g' = points g ++ new ∧ Forall (not_before (lastSync g)) new).
Proof.
  revert g t w. induction homes as [|home rest IH]; intros g t w.
  - apply wp_ret. split; [done|]. exists []. by rewrite app_nil_r.
  - cbn [collect_homes]. apply wp_bind.
    eapply wp_mono; [apply collect_home_spec|]. intros g1 t1 w1 (Hl1 & new1 & Hp1 & Hall1).
    eapply wp_mono; [apply IH|]. intros g2 t2 w2 (Hl2 & new2 & Hp2 & Hall2).
    split; [congruence|]. exists (new1 ++ new2).
    split; [by rewrite Hp2, Hp1, <- app_assoc|].
    apply Forall_app. split; [done|]. by rewrite <- Hl1.
Qed.

Lemma influx_Write_spec database batch t w :
  ∃ w', influx_Write database batch t w =
          Ok (match sink w with [] => Some "connection refused" | r :: _ => sk_err r end) t w' ∧
        host w' = host w ∧
        ∃ err, trace w' = trace w ++ [EvWrite database batch err].
Proof. unfold influx_Write. destruct (sink w); eauto. Qed.

End CollectFacts.

(** * The properties *)

(** ** The credential store *)

Lemma mode_check_protected h f :
  negb (f_mode f =? mode_0600) && negb (String.eqb (GOOS h) "windows") = false ↔
  protected h f.
Proof.
  unfold protected. rewrite andb_false_iff, !negb_false_iff, Z.eqb_eq.
  by rewrite String.eqb_eq.
Qed.

Lemma age_check_stale f now_ :
  Before (Add (f_modTime f) freshness) now_ = true ↔ stale_file f now_.
Proof. unfold Before, Add, stale_file. apply Z.ltb_lt. Qed.

Lemma size_check_empty f : (Size f =? 0) = true ↔ f_data f = "".
Proof.
  unfold Size. rewrite Z.eqb_eq. destruct (f_data f); cbn [String.length]; split; (done || lia).
Qed.

(** The checks that [GetRefreshToken] and [HasRefreshToken] share, as one
    case distinction on the file. *)
Lemma store_checks h f now_ :
  (¬ protected h f ∧
     negb (f_mode f =? mode_0600) && negb (String.eqb (GOOS h) "windows") = true) ∨
  (protected h f ∧
     negb (f_mode f =? mode_0600) && negb (String.eqb (GOOS h) "windows") = false ∧
     ((stale_file f now_ ∧ Before (Add (f_modTime f) freshness) now_ = true) ∨
      (¬ stale_file f now_ ∧ Before (Add (f_modTime f) freshness) now_ = false ∧
       ((f_data f = "" ∧ (Size f =? 0) = true) ∨
        (f_data f ≠ "" ∧ (Size f =? 0) = false))))).
Proof.
  destruct (negb (f_mode f =? mode_0600) && negb (String.eqb (GOOS h) "windows")) eqn:Hm.
  - left. split; [|done]. rewrite <- mode_check_protected. by rewrite Hm.
  - right. split; [by apply mode_check_protected|]. split; [done|].
    destruct (Before (Add (f_modTime f) freshness) now_) eqn:Ha.
    + left. split; [by apply age_check_stale | done].
    + right. split; [rewrite <- age_check_stale; by rewrite Ha|]. split; [done|].
      destruct (Size f =? 0) eqn:Hs.
      * left. split; [by apply size_check_empty | done].
      * right. split; [rewrite <- size_check_empty; by rewrite Hs | done].
Qed.

Section StoreProperties.
Context `{SecretCodec}.

(** A trusted, fresh and non-empty credential file is read and decoded. *)
Lemma GetRefreshToken_reads t w f :
  files (host w) !! refreshTokenPath t = Some f → protected (host w) f →
  ¬ stale_file f (now w) → f_data f ≠ "" →
  GetRefreshToken t w =
    if decide (refreshTokenPath t ∈ unreadable (host w))
    then ("", Some ("open " +:+ refreshTokenPath t +:+ ": permission denied"))
    else (TokenDecrypt (f_data f), None).
Proof.
  intros Hf Hp Hns Hne. unfold GetRefreshToken, Stat, ReadFile. rewrite Hf.
  destruct (store_checks (host w) f (now w))
    as [[Hnp _] | (_ & -> & [[Hs _] | (_ & -> & [[He _] | [_ ->]])])]; try done.
  by destruct (decide _).
Qed.

(** C2, as amended. [GetRefreshToken] answers "not found" (the empty secret
    and no error) for a trusted file that is older than the freshness window
    or empty. A missing file and a file whose mode is not owner-only read and
    write (on a platform other than Windows) are errors, as is a failed read.
    [HasRefreshToken], which has no error result, is false in exactly the
    four cases. *)
Theorem GetRefreshToken_cases (t : Tado) (w : World) :
  (files (host w) !! refreshTokenPath t = None →
     ∃ e, GetRefreshToken t w = ("", Some e)) ∧
  (∀ f, files (host w) !! refreshTokenPath t = Some f → ¬ protected (host w) f →
     GetRefreshToken t w = ("", Some "refresh token cache is not properly protected")) ∧
  (∀ f, files (host w) !! refreshTokenPath t = Some f → protected (host w) f →
     stale_file f (now w) ∨ f_data f = "" →
     GetRefreshToken t w = ("", None)) ∧
  (∀ f, files (host w) !! refreshTokenPath t = Some f → protected (host w) f →
     ¬ stale_file f (now w) → f_data f ≠ "" →
     GetRefreshToken t w =
       if decide (refreshTokenPath t ∈ unreadable (host w))
       then ("", Some ("open " +:+ refreshTokenPath t +:+ ": permission denied"))
       else (TokenDecrypt (f_data f), None)) ∧
  (HasRefreshToken t w = false ↔
     files (host w) !! refreshTokenPath t = None ∨
     ∃ f, files (host w) !! refreshTokenPath t = Some f ∧
          (¬ protected (host w) f ∨ stale_file f (now w) ∨ f_data f = "")).
Proof.
  unfold GetRefreshToken, HasRefreshToken, Stat, ReadFile.
  destruct (files (host w) !! refreshTokenPath t) as [f|] eqn:Hf.
  - pose proof (store_checks (host w) f (now w)) as Hc.
    split; [done|].
    destruct Hc as [[Hnp ->] | (Hp & -> & [[Hs ->] | (Hns & -> & [[He ->] | [Hne ->]])])].
    all: (split; [by intros ? [= <-] |]); (split; [intros ? [= <-]; tauto |]).
    all: (split; [intros ? [= <-] ? ? ?; try tauto; by destruct (decide _) |]).
    all: split; [intros ?; try done; right; exists f; tauto | intros Hc; try done].
    destruct Hc as [Hc | (f0 & Hc & Hc')]; [done|]. injection Hc as <-. tauto.
  - split; [eauto|]. do 3 (split; [done|]). split; [by left | done].
Qed.

(** What a successful save leaves on the disk. *)
Lemma SaveRefreshToken_saved secret t w t1 w1 :
  SaveRefreshToken secret t w = Ok None t1 w1 →
  t1 = t ∧ now w1 = now w ∧ unreadable (host w1) = unreadable (host w) ∧
  GOOS (host w1) = GOOS (host w) ∧
  files (host w1) !! refreshTokenPath t =
    Some {| f_mode := match files (host w) !! refreshTokenPath t with
                      | Some f => f_mode f
                      | None => Z.ldiff mode_0666 (umask (host w))
                      end;
            f_modTime := now w; f_data := TokenEncrypt secret |}.
Proof.
  unfold SaveRefreshToken, WriteFile, mbind, M_bind, mret, M_ret, get_t, get_w, put_w.
  destruct (len secret =? 0); [done|].
  destruct (decide (refreshTokenPath t ∈ unwritable (host w))); [done|].
  intros [= <- <-]. cbn. by rewrite lookup_insert_eq.
Qed.

(** C5, as amended. A non-empty secret whose obfuscated form is not empty,
    saved with success over a credential file that exists with the mode of
    owner-only read and write (or on Windows), is returned by a load that
    finds the disk as the save left it, falls within the freshness window
    and can read the file, provided the codec is reversible. *)
Theorem save_then_load secret t w t1 w1 w2 :
  codec_reversible _ →
  secret ≠ "" → TokenEncrypt secret ≠ "" →
  (∃ f, files (host w) !! refreshTokenPath t = Some f ∧ f_mode f = mode_0600) ∨
    GOOS (host w) = "windows" →
  SaveRefreshToken secret t w = Ok None t1 w1 →
  host w2 = host w1 → now w2 ≤ now w1 + freshness →
  refreshTokenPath t ∉ unreadable (host w1) →
  GetRefreshToken t1 w2 = (secret, None).
Proof.
  intros Hrev Hsecret Henc Hmode Hsave Hhost Hnow Hread.
  destruct (SaveRefreshToken_saved _ _ _ _ _ Hsave) as (-> & Hn & Hu & Hg & Hfile).
  pose proof (GetRefreshToken_reads t w2) as Hload.
  rewrite Hhost in Hload. rewrite (Hload _ Hfile).
  - destruct (decide _); [done|]. cbn. by rewrite Hrev.
  - unfold protected. cbn. destruct Hmode as [(f & -> & Hm) | Hw]; [by left | right; congruence].
  - unfold stale_file. cbn. lia.
  - done.
Qed.

End StoreProperties.

Lemma flip_flip c : flip (flip c) = c.
Proof. destruct c. cbn. by rewrite !negb_involutive. Qed.

Lemma masking_codec_reversible : codec_reversible masking_codec.
Proof. intros s. cbn. induction s as [|c s IH]; cbn; [done|]. by rewrite flip_flip, IH. Qed.

(** ** The credential manager *)

Section ManagerProperties.
Context `{SecretCodec}.

Lemma renewal_attempt_failure t w e t1 w1 :
  renewal_attempt t w = Ok (Some e) t1 w1 → t1 = t.
Proof.
  unfold renewal_attempt. destruct (HasRefreshToken t w); intros Hrun.
  - pose proof (wp_run _ _ _ _ _ _ _ _ (RefreshToken_spec t w) Hrun) as (_ & Hkeep & _).
    by apply Hkeep.
  - pose proof (wp_run _ _ _ _ _ _ _ _ (AquireToken_spec t w) Hrun) as (_ & Hkeep & _).
    by apply Hkeep.
Qed.

(** C3, as amended. With an access session whose renewal is due, a failed
    refresh or acquire attempt leaves the session as it was; [AuthCheck] then
    looks at the clock again, and returns success when that instant is not
    after the expiry (the failure is swallowed, also at the instant of expiry
    itself), and the error of the attempt when it is strictly after it. *)
Theorem AuthCheck_renewal_failure t w e t1 w1 :
  0 < len (accessToken t) → refresh t ≤ now w →
  renewal_attempt t w = Ok (Some e) t1 w1 →
  t1 = t ∧
  (now w1 ≤ expires t → AuthCheck t w = Ok None t w1) ∧
  (expires t < now w1 → AuthCheck t w = Ok (Some e) t w1).
Proof.
  intros Hlen Hdue Hrun.
  pose proof (renewal_attempt_failure _ _ _ _ _ Hrun) as ->. split; [done|].
  assert ((0 <? len (accessToken t)) = true) as Hlen1 by by apply Z.ltb_lt.
  assert ((len (accessToken t) =? 0) = false) as Hlen2 by (apply Z.eqb_neq; lia).
  assert (After (refresh t) (now w) = false) as Hafter by (apply Z.ltb_ge; lia).
  unfold renewal_attempt in Hrun.
  assert (∀ b, Before (expires t) (now w1) = b →
            AuthCheck t w = Ok (if b then Some e else None) t w1) as Hcheck.
  { intros b Hb. unfold AuthCheck, mbind, M_bind. cbn. rewrite Hlen1. cbn. rewrite Hafter.
    destruct (HasRefreshToken t w); rewrite Hrun; run_steps;
      rewrite Hb; destruct b; run_steps; by rewrite ?Hlen2. }
  split; intros Hcmp.
  - apply (Hcheck false), Z.ltb_ge. lia.
  - apply (Hcheck true), Z.ltb_lt. lia.
Qed.

(** C8. [AuthCheck] always returns, and every request with the password
    grant that it sent left at a moment when the disk held no usable
    credential: [HasRefreshToken] was false for the disk and the instant
    recorded with the request. *)
Theorem AuthCheck_password_grant t w :
  ∃ err t' w' evs,
    AuthCheck t w = Ok err t' w' ∧ trace w' = trace w ++ evs ∧
    ∀ rq h at_, EvSent rq h at_ ∈ evs → is_password_grant rq →
                HasRefreshToken t (snapshot h at_) = false.
Proof.
  destruct (wp_ok _ _ _ _ (AuthCheck_spec t w)) as (err & t' & w' & Hrun & _ & evs & Htr & Hall).
  exists err, t', w', evs. do 2 (split; [done|]).
  intros rq h at_ Hin Hgrant. rewrite Forall_forall in Hall.
  by destruct (Hall _ Hin) as [_ Hno]; apply Hno.
Qed.

(** C10. Once the session is authorized and the [/me] request is answered
    with a status below 400 and a document that decodes, [GetHome] returns
    the first element of the list of homes, and panics with an index out of
    range when the list is empty: it returns no error then. *)
Theorem GetHome_first_home t w t1 w1 reply rest response me :
  AuthCheck t (emit (EvCall "GetHome" 0) w) = Ok None t1 w1 →
  net w1 = reply :: rest → result reply = inl response →
  Z.quot (StatusCode response) 100 < 4 →
  decode_MeResponse (Body_ response) = (me, None) →
  match Homes me with
  | [] => GetHome t w = Panic "index out of range [0] with length 0"
  | home :: _ => ∃ w2, GetHome t w = Ok (home, None) t1 w2
  end.
Proof.
  intros Hauth Hnet Hres Hstatus Hme.
  assert ((4 <=? Z.quot (StatusCode response) 100) = false) as Hs by (apply Z.leb_gt; lia).
  unfold GetHome, mbind, M_bind. cbn. rewrite Hauth.
  unfold api_request, mbind, M_bind, client_Do. cbn. rewrite Hnet, Hres, Hs, Hme.
  destruct (Homes me); cbn; eauto.
Qed.

End ManagerProperties.

(** ** The collection cycle *)

Section CycleProperties.
Context `{SecretCodec} `{PointLibrary}.

(** C1, as amended. In every cycle that ends, the batch handed to the sink
    is the pending batch followed by pointers whose points are not before
    the watermark the cycle started with. A zone state whose temperature
    time stamp is strictly before that watermark is skipped; a state that
    adds to the batch has its temperature present with a time stamp at or
    after the watermark, which becomes the time of the point. *)
Theorem collect_admits_not_before conf g t w :
  (∀ g' t' w', collect conf g t w = Ok g' t' w' →
     ∃ tr new err,
       trace w' = tr ++ [EvWrite (Influx_Database conf) (points g ++ new) err] ∧
       Forall (not_before (lastSync g)) new) ∧
  (∀ home zoneId state temp ts,
     InsideTemperature (SensorDataPoints_ state) = Some temp →
     Timestamp temp = Some ts → ts < lastSync g →
     collect_state home g (zoneId, state) t w = Ok g t w) ∧
  (∀ home zoneId state g' t' w',
     collect_state home g (zoneId, state) t w = Ok g' t' w' →
     g' = g ∨
     ∃ temp ts p,
       InsideTemperature (SensorDataPoints_ state) = Some temp ∧
       Timestamp temp = Some ts ∧ lastSync g ≤ ts ∧
       points g' = points g ++ [p] ∧ ∀ pt, p = Some pt → pt_time pt = ts).
Proof.
  split; [|split].
  - intros g' t' w'. unfold collect, mbind, M_bind.
    pose proof (collect_homes_spec (Collect conf) g t w) as Hloop. unfold wp in Hloop.
    destruct (collect_homes g (Collect conf) t w) as [g1 t1 w1|]; [|done].
    destruct Hloop as (_ & new & Hp & Hall).
    destruct (influx_Write_spec (Influx_Database conf) (points g1) t1 w1)
      as (w2 & -> & _ & err & Htr).
    rewrite Hp in Htr.
    destruct (match sink w1 with [] => _ | _ => _ end); cbn; intros [= <- <- <-]; eauto.
  - intros home zoneId state temp ts Htemp Hts Hlt.
    unfold collect_state. rewrite Htemp, Hts. run_steps.
    assert (Before ts (lastSync g) = true) as -> by by apply Z.ltb_lt. done.
  - intros home zoneId state g' t' w' Hrun.
    by destruct (wp_run _ _ _ _ _ _ _ _ (collect_state_spec home g zoneId state t w) Hrun)
      as (_ & _ & _ & _ & Hcases).
Qed.

(** [collect] after its loop: the write and what follows it. *)
Lemma collect_steps conf g t w g1 t1 w1 :
  collect_homes g (Collect conf) t w = Ok g1 t1 w1 →
  collect conf g t w =
    match influx_Write (Influx_Database conf) (points g1) t1 w1 with
    | Ok (Some _) t2 w2 => Ok g1 t2 w2
    | Ok None t2 w2 => Ok {| zones := zones g1; points := []; lastSync := now w2 |} t2 w2
    | Panic msg => Panic msg
    end.
Proof.
  intros Hloop. unfold collect, mbind, M_bind. rewrite Hloop.
  by destruct (influx_Write _ _ t1 w1) as [[e|] t2 w2|msg].
Qed.

(** C6. When the loop over the homes has ended, the watermark is the one
    the cycle started with and the batch extends the pending one. The batch
    is then handed to the sink. If the write fails, [collect] returns with
    that watermark and that batch; if it succeeds, whatever the batch holds,
    the watermark becomes the instant read after the write and the batch is
    emptied. *)
Theorem collect_ends conf g t w g1 t1 w1 :
  collect_homes g (Collect conf) t w = Ok g1 t1 w1 →
  ∃ new err w2 g',
    points g1 = points g ++ new ∧
    influx_Write (Influx_Database conf) (points g1) t1 w1 = Ok err t1 w2 ∧
    collect conf g t w = Ok g' t1 w2 ∧
    match err with
    | Some _ => lastSync g' = lastSync g ∧ points g' = points g ++ new
    | None => lastSync g' = now w2 ∧ points g' = []
    end.
Proof.
  intros Hloop.
  destruct (wp_run _ _ _ _ _ _ _ _ (collect_homes_spec (Collect conf) g t w) Hloop)
    as (Hl & new & Hp & _).
  destruct (influx_Write_spec (Influx_Database conf) (points g1) t1 w1)
    as (w2 & Hwrite & _ & _).
  rewrite (collect_steps _ _ _ _ _ _ _ Hloop), Hwrite.
  destruct (match sink w1 with [] => _ | _ => _ end) as [e|].
  - exists new, (Some e), w2, g1. repeat split; congruence.
  - by exists new, None, w2, {| zones := zones g1; points := []; lastSync := now w2 |}.
Qed.

Lemma stale_iff g home states :
  negb (homefound g home) || negb (allzonesfound g home (ZoneStates states)) = true ↔
  cache_stale g home states.
Proof.
  unfold cache_stale, allzonesfound, homefound, zone_lookup.
  destruct (zones g !! Id home) as [m|] eqn:Hm; cbn; [|split; [by left | done]].
  induction (ZoneStates states) as [|[zoneId state] rest IH]; cbn.
  - split; [done|]. intros [? | (? & ? & Hin & _)]; [done | by apply elem_of_nil in Hin].
  - destruct (m !! zoneId) eqn:Hz; cbn.
    + rewrite IH.
      split; (intros [? | (z & st & Hin & Hnone)]; [done|]); right; exists z, st.
      * split; [by apply elem_of_cons; right | done].
      * apply elem_of_cons in Hin as [[= -> ->] | Hin]; [congruence | done].
    + split; [|done]. intros _. right. exists zoneId, state.
      split; [apply elem_of_cons; by left | done].
Qed.


Lemma Itoa_1 : Itoa 1 = "1".
Proof. vm_compute. reflexivity. Qed.

Lemma Itoa_10 : Itoa 10 = "10".
Proof. vm_compute. reflexivity. Qed.

(** The power percentage is the heating power when there is one, whatever
    a well-formed AC indicator says. *)
Lemma power_of_heating act hp p t w :
  (∀ a, AcPower_ act = Some a → is_Some (ac_Value a)) →
  HeatingPower_ act = Some hp → hp_Percentage hp = Some p →
  power_of act t w = Ok p t w.
Proof.
  intros Hac Hhp Hp. unfold power_of. rewrite Hhp, Hp.
  destruct (AcPower_ act) as [a|]; run_steps; [|done].
  destruct (Hac a eq_refl) as [v ->]. run_steps. by destruct (String.eqb _ _).
Qed.

(** Without heating power, the power percentage is 100 for an AC indicator
    that reads "ON" in any letter case, and 0 for any other value and for
    no indicator. *)
Lemma power_of_ac act t w :
  HeatingPower_ act = None →
  power_of act t w =
    match AcPower_ act with
    | Some {| ac_Value := Some v |} =>
        Ok (if String.eqb (ToUpper v) "ON" then f32_100 else f32_0) t w
    | Some {| ac_Value := None |} =>
        Panic "invalid memory address or nil pointer dereference"
    | None => Ok f32_0 t w
    end.
Proof.
  intros Hhp. unfold power_of. rewrite Hhp.
  destruct (AcPower_ act) as [[[v|] ts]|]; run_steps; try done.
  by destruct (String.eqb _ _).
Qed.

(** A state that passes the watermark and has no humidity reading ends the
    cycle in a panic, whatever else it holds. *)
Lemma collect_state_needs_humidity home g zoneId state temp ts celsius t w :
  InsideTemperature (SensorDataPoints_ state) = Some temp →
  Timestamp temp = Some ts → lastSync g ≤ ts → Celsius temp = Some celsius →
  Humidity_ (SensorDataPoints_ state) = None →
  ∃ msg, collect_state home g (zoneId, state) t w = Panic msg.
Proof.
  intros Htemp Hts Hle Hc Hhum. unfold collect_state. rewrite Htemp, Hts, Hc, Hhum.
  run_steps. assert (Before ts (lastSync g) = false) as -> by (apply Z.ltb_ge; lia).
  pose proof (power_of_spec (ActivityDataPoints_ state) t w) as Hpower. unfold wp in Hpower.
  destruct (power_of (ActivityDataPoints_ state) t w) as [p ? ?|msg]; [|by eauto].
  destruct Hpower as [-> ->]. run_steps. eauto.
Qed.

Lemma collect_state_lounge g ac t w :
  (∀ a, ac = Some a → is_Some (ac_Value a)) →
  zone_name (zones g) 1 "10" = "Lounge" → lastSync g = 0 →
  NewPoint_check (pt_name lounge_point) (pt_tags lounge_point)
                 (pt_fields lounge_point) (pt_time lounge_point) = None →
  collect_state home_1 g ("10", lounge_state ac) t w =
    Ok {| zones := zones g; points := points g ++ [Some lounge_point];
          lastSync := lastSync g |} t w.
Proof.
  intros Hac Hname Hsync Haccept. unfold collect_state.
  change (Id home_1) with 1. change (Name home_1) with "Home".
  rewrite Hname, Hsync, Itoa_1.
  change (InsideTemperature (SensorDataPoints_ (lounge_state ac)))
    with (Some {| Celsius := Some f32_21_5; Timestamp := Some (100 * Second) |}).
  cbn [Timestamp Celsius]. unfold mbind, M_bind. cbn [deref mret M_ret].
  assert (Before (100 * Second) 0 = false) as -> by done.
  rewrite (power_of_heating (ActivityDataPoints_ (lounge_state ac)) _ f32_30 t w Hac
             eq_refl eq_refl).
  change (Humidity_ (SensorDataPoints_ (lounge_state ac)))
    with (Some {| hum_Percentage := Some f32_45; hum_Timestamp := Some (100 * Second) |}).
  cbn [deref mret M_ret hum_Percentage]. unfold NewPoint.
  change (NewPoint_check _ _ _ _) with
    (NewPoint_check (pt_name lounge_point) (pt_tags lounge_point)
                    (pt_fields lounge_point) (pt_time lounge_point)).
  by rewrite Haccept.
Qed.

Lemma refresh_zones_first g home states t w newZones t' w' :
  zones g !! Id home = None →
  GetZones (Id home) t w = Ok (newZones, None) t' w' →
  refresh_zones g home states t w =
    Ok (Some {| zones := <[Id home := zones_of newZones]> (zones g);
                points := points g; lastSync := lastSync g |}) t' w'.
Proof.
  intros Hzones Hfetch. unfold refresh_zones, homefound. rewrite Hzones.
  rewrite bool_decide_false by (by intros [? ?]). cbn [negb orb].
  unfold mbind, M_bind. by rewrite Hfetch.
Qed.

Lemma collect_home_steps g home states g' t w t1 w1 t2 w2 :
  GetZoneStates (Id home) t w = Ok (Some states, None) t1 w1 →
  refresh_zones g home states t1 w1 = Ok (Some g') t2 w2 →
  collect_home g home t w = collect_states home g' (ZoneStates states) t2 w2.
Proof.
  intros Hstates Hrefresh. unfold collect_home, mbind, M_bind.
  rewrite Hstates. cbn [deref mret M_ret]. by rewrite Hrefresh.
Qed.

(** C9. Scenario A: the home "Home" with id 1 is configured, nothing is
    pending, the watermark is 0 and the cache has no entry for the home; the
    states of the home hold the one zone "10" with 21.5 degrees at 100 s,
    45 % humidity and 30 % heating power (and any well-formed AC indicator);
    the topology names zone 10 "Lounge"; the library takes the point. Then
    the cycle hands the sink exactly one point: "Home.Lounge", power 30,
    tags homeId "1" and zoneId "10". *)
Theorem scenario_A g t w t1 w1 t2 w2 ac :
  points g = [] → lastSync g = 0 → zones g !! 1 = None →
  (∀ a, ac = Some a → is_Some (ac_Value a)) →
  GetZoneStates 1 t w =
    Ok (Some {| ZoneStates := [("10", lounge_state ac)] |}, None) t1 w1 →
  GetZones 1 t1 w1 = Ok ([lounge], None) t2 w2 →
  NewPoint_check (pt_name lounge_point) (pt_tags lounge_point)
                 (pt_fields lounge_point) (pt_time lounge_point) = None →
  ∃ g' w3 err,
    collect demo_conf g t w = Ok g' t2 w3 ∧
    trace w3 = trace w2 ++ [EvWrite "tado" [Some lounge_point] err] ∧
    pt_name lounge_point = "Home.Lounge" ∧
    pt_fields lounge_point !! "power" = Some f32_30 ∧
    f32_ratio f32_30 = Some (30 * 2 ^ 19, 2 ^ 19) ∧
    pt_tags lounge_point !! "homeId" = Some "1" ∧
    pt_tags lounge_point !! "zoneId" = Some "10".
Proof.
  intros Hpoints Hsync Hzones Hac Hstates Htopology Haccept.
  set (g1 := {| zones := <[1 := zones_of [lounge]]> (zones g);
                points := points g; lastSync := lastSync g |}).
  assert (zone_name (zones g1) 1 "10" = "Lounge") as Hname.
  { unfold zone_name, zone_lookup, g1. cbn [zones]. rewrite lookup_insert_eq.
    cbn [option_bind mbind zones_of fold_left lounge zone_Id zone_Name].
    by rewrite Itoa_10, lookup_insert_eq. }
  assert (collect_homes g (Collect demo_conf) t w =
          Ok {| zones := zones g1; points := [Some lounge_point];
                lastSync := lastSync g |} t2 w2) as Hloop.
  { cbn [demo_conf Collect collect_homes]. unfold mbind, M_bind.
    rewrite (collect_home_steps g home_1 _ g1 t w t1 w1 t2 w2 Hstates);
      [|by apply refresh_zones_first].
    cbn [ZoneStates collect_states]. unfold mbind, M_bind.
    rewrite (collect_state_lounge g1 ac t2 w2 Hac Hname Hsync Haccept).
    cbn [points g1 mret M_ret]. by rewrite Hpoints. }
  destruct (influx_Write_spec (Influx_Database demo_conf) [Some lounge_point] t2 w2)
    as (w3 & Hwrite & _ & err & Htr).
  assert (∃ g', collect demo_conf g t w = Ok g' t2 w3) as [g' Hrun].
  { rewrite (collect_steps _ _ _ _ _ _ _ Hloop). cbn [points]. rewrite Hwrite.
    destruct (match sink w2 with [] => _ | _ => _ end); eauto. }
  exists g', w3, err. split; [done|]. split; [done|]. by vm_compute.
Qed.

End CycleProperties.

(** * The properties on concrete inputs *)

(** ** Numbers and strings *)

Example binary32_constants :
  forallb f32_valid [f32_0; f32_100; f32_21_5; f32_30; f32_45] = true ∧
  f32_ratio f32_100 = Some (100 * 2 ^ 17, 2 ^ 17) ∧
  f32_ratio f32_21_5 = Some (43 * 2 ^ 18, 2 ^ 19) ∧
  f32_ratio f32_45 = Some (45 * 2 ^ 18, 2 ^ 18).
Proof. repeat split; vm_compute; reflexivity. Qed.

Example ToUpper_on :
  map ToUpper ["on"; "On"; "oN"; "ON"; "off"; "o n"] = ["ON"; "ON"; "ON"; "ON"; "OFF"; "O N"].
Proof. reflexivity. Qed.

Example Itoa_digits : map Itoa [0; 1; 10; -7; 1024] = ["0"; "1"; "10"; "-7"; "1024"].
Proof. vm_compute. reflexivity. Qed.

Example wrap64_overflow : dmul Second (2 ^ 62) = 0 ∧ dmul Second 600 = 600 * Second.
Proof. split; vm_compute; reflexivity. Qed.

(** ** The credential store *)

(** C2, counterexample. The credential file is missing, or has the mode
    0644 on Linux: [GetRefreshToken] returns an error, not "not found". *)
Lemma GetRefreshToken_errors :
  let t := demo_client in
  let missing := world_of (linux_host ∅) 0 [] [] in
  let readable_by_all :=
    world_of (linux_host {[ "gotadoflux.token" :=
                {| f_mode := 420; f_modTime := 0; f_data := mask "renew-0" |} ]}) 0 [] [] in
  files (host missing) !! refreshTokenPath t = None ∧
  GetRefreshToken (H := masking_codec) t missing =
    ("", Some "stat gotadoflux.token: no such file or directory") ∧
  GetRefreshToken (H := masking_codec) t readable_by_all =
    ("", Some "refresh token cache is not properly protected").
Proof. repeat split; vm_compute; reflexivity. Qed.

(** C5, counterexample. On Linux with the umask 022, a save to a path
    that holds no file succeeds and leaves a file of mode 0644, which the
    load at the same instant refuses with an error. *)
Lemma save_to_new_file_then_load_fails :
  let t := demo_client in
  let w := world_of (linux_host ∅) (500 * Second) [] [] in
  let saved := SaveRefreshToken (H := masking_codec) "renew-1" t w in
  answer saved = Some None ∧
  (f_mode <$> (w1 ← final_world saved; files (host w1) !! refreshTokenPath t)) = Some 420 ∧
  (GetRefreshToken (H := masking_codec) t <$> final_world saved) =
    Some ("", Some "refresh token cache is not properly protected").
Proof. repeat split; vm_compute; reflexivity. Qed.

(** C5, witness: the secret "renew-1" saved over the credential file of
    mode 0600 and loaded an hour later. *)
Lemma save_then_load_witness :
  GetRefreshToken (H := masking_codec) demo_client hour_after_save = ("renew-1", None).
Proof.
  apply (save_then_load (H := masking_codec) "renew-1" demo_client before_save
           demo_client after_save hour_after_save).
  - apply masking_codec_reversible.
  - discriminate.
  - discriminate.
  - left. eexists. split; reflexivity.
  - vm_compute. reflexivity.
  - reflexivity.
  - vm_compute. discriminate.
  - vm_compute. discriminate.
Defined.

(** ** The credential manager *)

(** C3, counterexample. At the instant of expiry itself (now = expiry =
    1000 s) the token endpoint refuses the refresh with "invalid_grant";
    [AuthCheck] swallows the failure and returns success. *)
Lemma renewal_failure_at_expiry_is_swallowed :
  let t := old_session in
  let w := refused_renewal (1000 * Second) in
  expires t ≤ now w ∧
  answer (renewal_attempt (H := masking_codec) t w) =
    Some (Some "could not get token: invalid_grant") ∧
  answer (AuthCheck (H := masking_codec) t w) = Some None.
Proof. repeat split; vm_compute; (reflexivity || discriminate). Qed.

(** C3, witness: the refresh is refused at 800 s, between the renewal
    watermark (700 s) and the expiry (1000 s). *)
Lemma AuthCheck_renewal_failure_witness :
  let w := refused_renewal (800 * Second) in
  let w1 := world_or w (renewal_attempt (H := masking_codec) old_session w) in
  AuthCheck (H := masking_codec) old_session w = Ok None old_session w1.
Proof.
  intros w w1.
  refine (proj1 (proj2 (AuthCheck_renewal_failure (H := masking_codec) old_session w
            "could not get token: invalid_grant" old_session w1 _ _ _)) _).
  - vm_compute. reflexivity.
  - vm_compute. discriminate.
  - vm_compute. reflexivity.
  - vm_compute. discriminate.
Defined.

(** The first [AuthCheck] of a process without a credential file sends one
    request, with the password grant, and the disk held no credential then. *)
Example AuthCheck_acquires_without_credential :
  match final_world (AuthCheck (H := masking_codec) demo_client
                       (first_cycle (lounge_state None))) with
  | Some w' =>
      match trace w' with
      | [EvSent rq h at_] =>
          is_password_grant rq ∧
          HasRefreshToken demo_client (snapshot h at_) = false
      | _ => False
      end
  | None => False
  end.
Proof. vm_compute. split; reflexivity. Qed.

(** With a usable credential on the disk the renewal is a refresh. *)
Example AuthCheck_refreshes_with_credential :
  match final_world (AuthCheck (H := masking_codec) old_session
                       (refused_renewal (800 * Second))) with
  | Some w' =>
      match trace w' with
      | [EvSent rq h at_] => rq_form rq !! "grant_type" = Some "refresh_token"
      | _ => False
      end
  | None => False
  end.
Proof. vm_compute. reflexivity. Qed.

(** C10, witness: the account has no home and [GetHome] panics. *)
Lemma GetHome_first_home_witness :
  GetHome (H := masking_codec) old_session account_without_home =
    Panic "index out of range [0] with length 0".
Proof.
  exact (GetHome_first_home (H := masking_codec) old_session account_without_home
           old_session (emit (EvCall "GetHome" 0) account_without_home)
           (ok_reply (BMe {| Homes := [] |})) []
           {| StatusCode := 200; Body_ := BMe {| Homes := [] |} |} {| Homes := [] |}
           eq_refl eq_refl eq_refl eq_refl eq_refl).
Defined.

(** ** The collection cycle *)

(** C1, counterexample. The watermark is 100 s and the temperature of the
    zone was read at 100 s: the state is not skipped, and the batch handed
    to the sink holds its point. *)
Lemma reading_at_watermark_is_emitted :
  let g := {| zones := ∅; points := []; lastSync := 100 * Second |} in
  let st := lounge_state None in
  let run := collect (H := masking_codec) (H0 := lenient_library) demo_conf g demo_client
               (first_cycle st) in
  (InsideTemperature (SensorDataPoints_ st) ≫= Timestamp) = Some (lastSync g) ∧
  ((λ w', last (trace w')) <$> final_world run) =
    Some (Some (EvWrite "tado" [Some lounge_point] None)).
Proof. split; vm_compute; reflexivity. Qed.

(** A reading strictly before the watermark is skipped: the batch is empty. *)
Example reading_before_watermark_is_skipped :
  let g := {| zones := ∅; points := []; lastSync := 150 * Second |} in
  let run := collect (H := masking_codec) (H0 := lenient_library) demo_conf g demo_client
               (first_cycle (lounge_state None)) in
  ((λ w', last (trace w')) <$> final_world run) = Some (Some (EvWrite "tado" [] None)) ∧
  (lastSync <$> answer run) = Some (1000 * Second + 18).
Proof. split; vm_compute; reflexivity. Qed.

(** C6, witness: the first cycle of scenario A, whose write succeeds. *)
Lemma collect_ends_witness :
  let g1 := default fresh_globals (answer first_loop) in
  let t1 := client_or demo_client first_loop in
  let w1 := world_or (first_cycle (lounge_state None)) first_loop in
  ∃ new err w2 g',
    points g1 = points fresh_globals ++ new ∧
    influx_Write (Influx_Database demo_conf) (points g1) t1 w1 = Ok err t1 w2 ∧
    collect (H := masking_codec) (H0 := lenient_library) demo_conf fresh_globals demo_client
      (first_cycle (lounge_state None)) = Ok g' t1 w2 ∧
    match err with
    | Some _ => lastSync g' = lastSync fresh_globals ∧ points g' = points fresh_globals ++ new
    | None => lastSync g' = now w2 ∧ points g' = []
    end.
Proof.
  intros g1 t1 w1.
  apply (collect_ends (H := masking_codec) (H0 := lenient_library) demo_conf fresh_globals
           demo_client (first_cycle (lounge_state None)) g1 t1 w1).
  vm_compute. reflexivity.
Defined.

(** A store that does not answer: the watermark stays and the batch is kept. *)
Example failed_write_keeps_the_batch :
  let w := world_of (linux_host ∅) (1000 * Second)
             [ok_reply (BTokens demo_tokens);
              ok_reply (BZoneStates {| ZoneStates := [("10", lounge_state None)] |});
              ok_reply (BZones [lounge])] [] in
  let run := collect (H := masking_codec) (H0 := lenient_library) demo_conf fresh_globals
               demo_client w in
  (lastSync <$> answer run) = Some 0 ∧ (points <$> answer run) = Some [Some lounge_point].
Proof. split; vm_compute; reflexivity. Qed.

(** The first cycle fetches the topology once; the states of a second
    fetch, whose zone is cached by then, cause no fetch. *)
Example topology_is_fetched_once :
  let w := world_of (linux_host ∅) (1000 * Second)
             [ok_reply (BTokens demo_tokens);
              ok_reply (BZoneStates {| ZoneStates := [("10", lounge_state None)] |});
              ok_reply (BZones [lounge]);
              ok_reply (BZoneStates {| ZoneStates := [("10", lounge_state None)] |})]
             [{| sk_latency := 3; sk_err := None |}; {| sk_latency := 3; sk_err := None |}] in
  let first := collect (H := masking_codec) (H0 := lenient_library) demo_conf fresh_globals
                 demo_client w in
  let second := collect (H := masking_codec) (H0 := lenient_library) demo_conf
                  (default fresh_globals (answer first)) (client_or demo_client first)
                  (world_or w first) in
  ((λ w', fetches (trace w')) <$> final_world first) = Some 1%nat ∧
  ((λ w', fetches (trace w')) <$> final_world second) = Some 1%nat.
Proof. split; vm_compute; reflexivity. Qed.

(** C9, witness: the first cycle of scenario A with no AC indicator. *)
Lemma scenario_A_witness :
  let t1 := client_or demo_client first_states in
  let w1 := world_or (first_cycle (lounge_state None)) first_states in
  let t2 := client_or t1 first_zones in
  let w2 := world_or w1 first_zones in
  ∃ g' w3 err,
    collect (H := masking_codec) (H0 := lenient_library) demo_conf fresh_globals demo_client
      (first_cycle (lounge_state None)) = Ok g' t2 w3 ∧
    trace w3 = trace w2 ++ [EvWrite "tado" [Some lounge_point] err] ∧
    pt_name lounge_point = "Home.Lounge" ∧
    pt_fields lounge_point !! "power" = Some f32_30 ∧
    f32_ratio f32_30 = Some (30 * 2 ^ 19, 2 ^ 19) ∧
    pt_tags lounge_point !! "homeId" = Some "1" ∧
    pt_tags lounge_point !! "zoneId" = Some "10".
Proof.
  intros t1 w1 t2 w2.
  apply (scenario_A (H := masking_codec) (H0 := lenient_library) fresh_globals demo_client
           (first_cycle (lounge_state None)) t1 w1 t2 w2 None).
  - reflexivity.
  - reflexivity.
  - reflexivity.
  - discriminate.
  - vm_compute. reflexivity.
  - vm_compute. reflexivity.
  - reflexivity.
Defined.

(** C4, the failing input. The state of scenario A without its humidity
    reading: the temperature is present and not before the watermark, and
    the cycle ends in a nil pointer dereference. *)
Theorem collect_without_humidity_panics :
  collect (H := masking_codec) (H0 := lenient_library) demo_conf fresh_globals demo_client
    (first_cycle dry_state) = Panic "invalid memory address or nil pointer dereference".
Proof. vm_compute. reflexivity. Qed.

(** An AC indicator without a value does the same. *)
Example collect_with_empty_ac_indicator_panics :
  collect (H := masking_codec) (H0 := lenient_library) demo_conf fresh_globals demo_client
    (first_cycle (lounge_state (Some {| ac_Value := None; ac_Timestamp := None |})))
  = Panic "invalid memory address or nil pointer dereference".
Proof. vm_compute. reflexivity. Qed.

(** Without an AC indicator and without heating power the point is built,
    with the power 0. *)
Example collect_without_activity :
  let st := {| SensorDataPoints_ := SensorDataPoints_ (lounge_state None);
               ActivityDataPoints_ := {| AcPower_ := None; HeatingPower_ := None |} |} in
  let run := collect (H := masking_codec) (H0 := lenient_library) demo_conf fresh_globals
               demo_client (first_cycle st) in
  ((λ w', last (trace w')) <$> final_world run) =
    Some (Some (EvWrite "tado"
      [Some {| pt_name := pt_name lounge_point; pt_tags := pt_tags lounge_point;
               pt_fields := <["power" := f32_0]> (pt_fields lounge_point);
               pt_time := pt_time lounge_point |}] None)).
Proof. vm_compute. reflexivity. Qed.

(** * Further properties *)

(** ** What the operations keep *)

Lemma wp_conj {A} E (m : M A) t w (Q1 Q2 : A → Tado → World → Prop) :
  wp E m t w Q1 → wp E m t w Q2 → wp E m t w (λ a t' w', Q1 a t' w' ∧ Q2 a t' w').
Proof. unfold wp. destruct (m t w); auto. Qed.

(** A relation between states that is reflexive and transitive and that
    the primitive steps respect is respected by every operation composed
    of them. *)
Section Respect.
Context `{SecretCodec} `{PointLibrary}.
Variable R : Tado → World → Tado → World → Prop.
Hypothesis R_refl : ∀ t w, R t w t w.
Hypothesis R_trans : ∀ t1 w1 t2 w2 t3 w3, R t1 w1 t2 w2 → R t2 w2 t3 w3 → R t1 w1 t3 w3.
Hypothesis R_save : ∀ token, respects False R (SaveRefreshToken token).
Hypothesis R_do : ∀ rq, respects False R (client_Do rq).
Hypothesis R_tell : ∀ ev, respects False R (tell ev).
Hypothesis R_expires : ∀ v, respects False R (set_expires v).
Hypothesis R_refresh : ∀ v, respects False R (set_refresh v).
Hypothesis R_accessToken : ∀ v, respects False R (set_accessToken v).
Hypothesis R_write : ∀ database batch, respects False R (influx_Write database batch).

Lemma respects_ret {A} E (a : A) : respects E R (mret a).
Proof. intros t w. apply wp_ret, R_refl. Qed.

Lemma respects_bind {A B} E (m : M A) (k : A → M B) :
  respects E R m → (∀ a, respects E R (k a)) → respects E R (m ≫= k).
Proof.
  intros Hm Hk t w. apply wp_bind. eapply wp_mono; [apply Hm|].
  intros a t1 w1 H1. eapply wp_mono; [apply Hk|]. intros b t2 w2 H2.
  exact (R_trans _ _ _ _ _ _ H1 H2).
Qed.

Lemma respects_total {A} E (m : M A) : respects False R m → respects E R m.
Proof. intros Hm t w. apply wp_total, Hm. Qed.

Lemma respects_get_t E : respects E R get_t.
Proof. intros t w. exact (R_refl t w). Qed.

Lemma respects_time_Now E : respects E R time_Now.
Proof. intros t w. exact (R_refl t w). Qed.

Lemma respects_read {A} E (f : Tado → World → A) : respects E R (read f).
Proof. intros t w. exact (R_refl t w). Qed.

Lemma respects_deref {A} (p : option A) : respects True R (deref p).
Proof. intros t w. destruct p; [exact (R_refl t w) | done]. Qed.

Lemma respects_panic {A} msg : respects True R (panic (A := A) msg).
Proof. by intros t w. Qed.

(** One step of a proof that a computation respects [R]. *)
Ltac respect_step :=
  first [ apply respects_ret | apply respects_get_t | apply respects_time_Now
        | apply respects_read | apply respects_deref | apply respects_panic
        | apply respects_total; first [ apply R_save | apply R_do | apply R_tell
                                      | apply R_expires | apply R_refresh
                                      | apply R_accessToken | apply R_write ]
        | apply respects_bind; [| intros ?]
        | case_match ].

Lemma respects_install_tokens E r : respects E R (install_tokens r).
Proof. unfold install_tokens. repeat respect_step. Qed.

Lemma respects_AquireToken E : respects E R AquireToken.
Proof. unfold AquireToken. repeat first [apply respects_install_tokens | respect_step]. Qed.

Lemma respects_RefreshToken E : respects E R RefreshToken.
Proof. unfold RefreshToken. repeat first [apply respects_install_tokens | respect_step]. Qed.

Lemma respects_AuthCheck E : respects E R AuthCheck.
Proof.
  unfold AuthCheck, return_if_expired, return_if_error.
  repeat first [apply respects_AquireToken | apply respects_RefreshToken | respect_step].
Qed.

Lemma respects_api_request E url : respects E R (api_request url).
Proof. unfold api_request. repeat respect_step. Qed.

Lemma respects_GetHome : respects True R GetHome.
Proof.
  unfold GetHome.
  repeat first [apply respects_AuthCheck | apply respects_api_request | respect_step].
Qed.

Lemma respects_GetZoneStates E id : respects E R (GetZoneStates id).
Proof.
  unfold GetZoneStates.
  repeat first [apply respects_AuthCheck | apply respects_api_request | respect_step].
Qed.

Lemma respects_GetZones E id : respects E R (GetZones id).
Proof.
  unfold GetZones.
  repeat first [apply respects_AuthCheck | apply respects_api_request | respect_step].
Qed.

Lemma respects_power_of act : respects True R (power_of act).
Proof. unfold power_of. repeat respect_step. Qed.

Lemma respects_collect_state home g entry : respects True R (collect_state home g entry).
Proof.
  unfold collect_state, NewPoint. destruct entry as [zoneId state].
  repeat first [apply respects_power_of | respect_step].
Qed.

Lemma respects_collect_states home entries g :
  respects True R (collect_states home g entries).
Proof.
  revert g. induction entries as [|entry rest IH]; intros g; cbn [collect_states].
  - apply respects_ret.
  - apply respects_bind; [apply respects_collect_state | intros g'; apply IH].
Qed.

Lemma respects_refresh_zones E g home states : respects E R (refresh_zones g home states).
Proof. unfold refresh_zones. repeat first [apply respects_GetZones | respect_step]. Qed.

Lemma respects_collect_home g home : respects True R (collect_home g home).
Proof.
  unfold collect_home.
  repeat first [apply respects_GetZoneStates | apply respects_refresh_zones
               | apply respects_collect_states | respect_step].
Qed.

Lemma respects_collect_homes homes g : respects True R (collect_homes g homes).
Proof.
  revert g. induction homes as [|home rest IH]; intros g; cbn [collect_homes].
  - apply respects_ret.
  - apply respects_bind; [apply respects_collect_home | intros g'; apply IH].
Qed.

Lemma respects_collect conf g : respects True R (collect conf g).
Proof. unfold collect. repeat first [apply respects_collect_homes | respect_step]. Qed.

End Respect.

(** ** The frame of the client and of the cycle *)

Lemma cache_kept_refl path h : cache_kept path h h.
Proof. unfold cache_kept. repeat split; eauto. Qed.

Lemma cache_kept_trans path h1 h2 h3 :
  cache_kept path h1 h2 → cache_kept path h2 h3 → cache_kept path h1 h3.
Proof.
  intros (Hg1 & Hu1 & Hr1 & Hw1 & Ho1 & Hm1) (Hg2 & Hu2 & Hr2 & Hw2 & Ho2 & Hm2).
  unfold cache_kept. repeat split; try congruence.
  - intros p Hp. by rewrite Ho2, Ho1.
  - intros f Hf. destruct (Hm1 f Hf) as (f1 & Hf1 & Hmode1).
    destruct (Hm2 f1 Hf1) as (f2 & Hf2 & Hmode2). exists f2. split; [done | congruence].
Qed.

Lemma calm_later w w' :
  (∃ used, net w = used ++ net w') → (∃ used, sink w = used ++ sink w') →
  calm w → calm w'.
Proof.
  intros [un Hn] [us Hs] [Hcn Hcs]. rewrite Hn in Hcn. rewrite Hs in Hcs.
  apply Forall_app in Hcn as [_ Hcn]. apply Forall_app in Hcs as [_ Hcs]. by split.
Qed.

Lemma frame_refl t w : frame t w t w.
Proof.
  unfold frame. do 3 (split; [done|]). split; [apply cache_kept_refl|].
  split; [by exists []|]. split; [by exists []|].
  split; [exists []; by rewrite app_nil_r | done].
Qed.

Lemma frame_trans t1 w1 t2 w2 t3 w3 :
  frame t1 w1 t2 w2 → frame t2 w2 t3 w3 → frame t1 w1 t3 w3.
Proof.
  intros (Hp1 & Hu1 & Hs1 & Hk1 & [n1 Hn1] & [s1 Hsk1] & [e1 He1] & Ht1)
         (Hp2 & Hu2 & Hs2 & Hk2 & [n2 Hn2] & [s2 Hsk2] & [e2 He2] & Ht2).
  unfold frame. do 3 (split; [congruence|]).
  split; [rewrite Hp1 in Hk2; by eapply cache_kept_trans|].
  split; [exists (n1 ++ n2); by rewrite Hn1, Hn2, app_assoc|].
  split; [exists (s1 ++ s2); by rewrite Hsk1, Hsk2, app_assoc|].
  split; [exists (e1 ++ e2); by rewrite He2, He1, app_assoc|].
  intros Hcalm. specialize (Ht1 Hcalm).
  assert (calm w2) as Hcalm2 by (eapply calm_later; [| |exact Hcalm]; eauto).
  specialize (Ht2 Hcalm2). lia.
Qed.

Section Frame.
Context `{SecretCodec} `{PointLibrary}.

Lemma frame_SaveRefreshToken token : respects False frame (SaveRefreshToken token).
Proof.
  intros t w.
  unfold wp, SaveRefreshToken, WriteFile, mbind, M_bind, mret, M_ret, get_t, get_w, put_w.
  destruct (len token =? 0); [apply frame_refl|].
  destruct (decide (refreshTokenPath t ∈ unwritable (host w))) as [Hin|Hin]; cbn.
  - destruct w; apply frame_refl.
  - unfold frame, cache_kept. cbn. do 3 (split; [done|]).
    split; [|split; [by exists []|]; split; [by exists []|];
             split; [exists []; by rewrite app_nil_r | done]].
    do 4 (split; [done|]). split.
    + intros p Hp. by rewrite lookup_insert_ne.
    + intros f Hf. rewrite Hf, lookup_insert_eq. by eexists.
Qed.

Lemma frame_client_Do rq : respects False frame (client_Do rq).
Proof.
  intros t w. unfold wp, client_Do. cbn.
  destruct (net w) as [|r rest] eqn:Hnet; unfold frame; cbn; rewrite ?Hnet;
    (do 3 (split; [done|])); (split; [apply cache_kept_refl|]).
  - split; [by exists []|]. split; [by exists []|]. split; [by eexists | done].
  - split; [by exists [r]|]. split; [by exists []|]. split; [by eexists|].
    intros [Hcalm _]. rewrite Hnet in Hcalm. apply Forall_cons in Hcalm as [Hr _].
    unfold Add. lia.
Qed.

Lemma frame_tell ev : respects False frame (tell ev).
Proof.
  intros t w. unfold wp, tell, frame. cbn. do 3 (split; [done|]).
  split; [apply cache_kept_refl|]. split; [by exists []|]. split; [by exists []|].
  split; [by eexists | done].
Qed.

Lemma frame_session t t' w :
  refreshTokenPath t' = refreshTokenPath t → Username t' = Username t →
  password t' = password t → frame t w t' w.
Proof.
  intros Hp Hu Hs. destruct (frame_refl t w) as (_ & _ & _ & Hrest). by unfold frame.
Qed.

Lemma frame_set_expires v : respects False frame (set_expires v).
Proof. intros t w. by apply frame_session. Qed.

Lemma frame_set_refresh v : respects False frame (set_refresh v).
Proof. intros t w. by apply frame_session. Qed.

Lemma frame_set_accessToken v : respects False frame (set_accessToken v).
Proof. intros t w. by apply frame_session. Qed.

Lemma frame_influx_Write database batch :
  respects False frame (influx_Write database batch).
Proof.
  intros t w. unfold wp, influx_Write.
  destruct (sink w) as [|r rest] eqn:Hsink; unfold frame; cbn; rewrite ?Hsink;
    (do 3 (split; [done|])); (split; [apply cache_kept_refl|]).
  - split; [by exists []|]. split; [by exists []|]. split; [by eexists | done].
  - split; [by exists []|]. split; [by exists [r]|]. split; [by eexists|].
    intros [_ Hcalm]. rewrite Hsink in Hcalm. apply Forall_cons in Hcalm as [Hr _].
    unfold Add. lia.
Qed.

End Frame.

(** The steps of [frame], for the rules of [respects]. *)
Ltac frame_steps :=
  first [ exact frame_refl | exact frame_trans | exact frame_SaveRefreshToken
        | exact frame_client_Do | exact frame_tell | exact frame_set_expires
        | exact frame_set_refresh | exact frame_set_accessToken
        | exact frame_influx_Write ].

Section FrameOfOperations.
Context `{SecretCodec} `{PointLibrary}.


Lemma frame_AquireToken : respects False frame AquireToken.
Proof. apply respects_AquireToken; frame_steps. Qed.

Lemma frame_RefreshToken : respects False frame RefreshToken.
Proof. apply respects_RefreshToken; frame_steps. Qed.

Lemma frame_GetHome : respects True frame GetHome.
Proof. apply respects_GetHome; frame_steps. Qed.


Lemma frame_GetZones id : respects False frame (GetZones id).
Proof. apply respects_GetZones; frame_steps. Qed.

Lemma frame_collect_homes homes g : respects True frame (collect_homes g homes).
Proof. apply respects_collect_homes; frame_steps. Qed.

Lemma frame_collect conf g : respects True frame (collect conf g).
Proof. apply respects_collect; frame_steps. Qed.

Lemma frame_wait d : 0 ≤ d → respects False frame (wait d).
Proof.
  intros Hd t w. unfold wp, wait, frame. cbn. do 3 (split; [done|]).
  split; [apply cache_kept_refl|]. split; [by exists []|]. split; [by exists []|].
  split; [exists []; by rewrite app_nil_r|]. intros _. unfold Add. lia.
Qed.

(** A trusted token cache stays trusted along [frame]. *)
Lemma frame_trusted t w t' w' :
  frame t w t' w' → trusted (refreshTokenPath t) (host w) →
  trusted (refreshTokenPath t') (host w').
Proof.
  intros (Hp & _ & _ & (Hg & _ & _ & _ & _ & Hm) & _) (f & Hf & Hprot).
  destruct (Hm f Hf) as (f' & Hf' & Hmode). exists f'. rewrite Hp. split; [done|].
  unfold protected in *. rewrite Hmode, Hg. done.
Qed.

(** One cycle, with the watermark: it keeps the frame, and under calm
    services a watermark that is not in the future moves forward only and
    stays not in the future. *)
Lemma collect_watermark conf g t w :
  wp True (collect conf g) t w (λ g' t' w',
    frame t w t' w' ∧
    (calm w → lastSync g ≤ now w → lastSync g ≤ lastSync g' ∧ lastSync g' ≤ now w')).
Proof.
  unfold collect. apply wp_bind.
  eapply wp_mono; [apply (wp_conj _ _ _ _ _ _ (frame_collect_homes (Collect conf) g t w)
                                             (collect_homes_spec (Collect conf) g t w))|].
  intros g1 t1 w1 [Hf1 [Hl1 _]]. apply wp_bind. apply wp_total.
  eapply wp_mono; [apply frame_influx_Write|]. intros err t2 w2 Hf2.
  pose proof (frame_trans _ _ _ _ _ _ Hf1 Hf2) as Hf.
  assert (calm w → now w ≤ now w2) as Hnow by (by destruct Hf as (_ & _ & _ & _ & _ & _ & _ & ?)).
  destruct err as [e|].
  - apply wp_ret. split; [done|]. intros Hcalm Hsync. specialize (Hnow Hcalm). lia.
  - apply wp_bind. cbn. split; [done|].
    intros Hcalm Hsync. specialize (Hnow Hcalm). lia.
Qed.

Lemma calm_frame t w t' w' : frame t w t' w' → calm w → calm w'.
Proof. intros (_ & _ & _ & _ & Hn & Hs & _). by apply calm_later. Qed.

Lemma ticks_watermark conf waits g t w :
  Forall (λ d, 0 ≤ d) waits →
  wp True (ticks conf waits g) t w (λ g' t' w',
    frame t w t' w' ∧
    (calm w → lastSync g ≤ now w → lastSync g ≤ lastSync g' ∧ lastSync g' ≤ now w')).
Proof.
  intros Hwaits. revert g t w.
  induction Hwaits as [|d rest Hd _ IH]; intros g t w; cbn [ticks].
  - apply wp_ret. split; [apply frame_refl | lia].
  - apply wp_bind. apply wp_total.
    eapply wp_mono; [apply (frame_wait d Hd)|]. intros [] t0 w0 Hf0.
    apply wp_bind. eapply wp_mono; [apply collect_watermark|]. intros g1 t1 w1 [Hf1 Hs1].
    eapply wp_mono; [apply IH|]. intros g2 t2 w2 [Hf2 Hs2].
    pose proof (frame_trans _ _ _ _ _ _ Hf0 Hf1) as Hf01.
    split; [by eapply frame_trans|]. intros Hcalm Hsync.
    assert (now w ≤ now w0) as Hn0 by (by destruct Hf0 as (_ & _ & _ & _ & _ & _ & _ & Hn0); apply Hn0).
    pose proof (calm_frame _ _ _ _ Hf0 Hcalm) as Hcalm0.
    pose proof (calm_frame _ _ _ _ Hf1 Hcalm0) as Hcalm1.
    destruct (Hs1 Hcalm0 ltac:(lia)) as [Ha Hb].
    destruct (Hs2 Hcalm1 Hb) as [Hc Hd']. lia.
Qed.

Lemma Manage_cycles_watermark conf waits g t w :
  Forall (λ d, 0 ≤ d) waits →
  wp True (Manage_cycles conf waits g) t w (λ g' t' w',
    frame t w t' w' ∧
    (calm w → lastSync g ≤ now w → lastSync g ≤ lastSync g' ∧ lastSync g' ≤ now w')).
Proof.
  intros Hwaits. unfold Manage_cycles. apply wp_bind.
  eapply wp_mono; [apply collect_watermark|]. intros g1 t1 w1 [Hf1 Hs1].
  eapply wp_mono; [by apply ticks_watermark|]. intros g2 t2 w2 [Hf2 Hs2].
  split; [by eapply frame_trans|]. intros Hcalm Hsync.
  pose proof (calm_frame _ _ _ _ Hf1 Hcalm) as Hcalm1.
  destruct (Hs1 Hcalm Hsync) as [Ha Hb]. destruct (Hs2 Hcalm1 Hb) as [Hc Hd]. lia.
Qed.

End FrameOfOperations.

(** ** Start-up *)

(** The token cache that the start-up creates. *)
Lemma token_cache_creates configname p h now_ path h' :
  token_cache configname p h now_ = Started path h' →
  files h !! path = None →
  files h' !! path = Some {| f_mode := mode_0600; f_modTime := now_; f_data := "" |}.
Proof.
  unfold token_cache, Stat, Create, WriteFile.
  set (q0 := if len p =? 0 then configname +:+ ".token" else p).
  generalize (Z.ldiff mode_0666 (umask h)). intros m0.
  destruct (files h !! q0) as [f|] eqn:Hf.
  - destruct (negb (f_mode f =? mode_0600) && negb (String.eqb (GOOS h) "windows"));
      [done|]. intros [= <- <-]. congruence.
  - destruct (decide (q0 ∈ unwritable h)); [done|]. intros [= <- <-] _.
    cbn. by rewrite lookup_alter_eq, lookup_insert_eq.
Qed.

(** An empty token cache is no credential. *)
Lemma empty_cache_has_no_token t w f :
  files (host w) !! refreshTokenPath t = Some f → f_data f = "" →
  HasRefreshToken t w = false.
Proof.
  intros Hf Hempty. unfold HasRefreshToken, Stat. rewrite Hf.
  apply size_check_empty in Hempty. rewrite Hempty. by repeat case_match.
Qed.

(** X1. When the start-up of [main] goes on (no [log.Fatalf]), the token
    cache exists at the path it chose and passes the mode check of the
    store (mode 0600, or Windows); no other file has changed; a cache that
    was there is left as it was, and a cache that was missing is now an
    empty file, which the store reports as no credential. *)
Theorem token_cache_started configname p h now_ path h' :
  token_cache configname p h now_ = Started path h' →
  path = (if len p =? 0 then configname +:+ ".token" else p) ∧
  trusted path h' ∧
  (∀ q, q ≠ path → files h' !! q = files h !! q) ∧
  (is_Some (files h !! path) → h' = h) ∧
  (files h !! path = None →
     files h' !! path = Some {| f_mode := mode_0600; f_modTime := now_; f_data := "" |} ∧
     ∀ t w, refreshTokenPath t = path → host w = h' → HasRefreshToken t w = false).
Proof.
  intros Hstart. pose proof (token_cache_creates _ _ _ _ _ _ Hstart) as Hcreated.
  revert Hstart. unfold token_cache, Stat, Create, WriteFile.
  set (q0 := if len p =? 0 then configname +:+ ".token" else p).
  destruct (files h !! q0) as [f|] eqn:Hf.
  - destruct (negb (f_mode f =? mode_0600) && negb (String.eqb (GOOS h) "windows")) eqn:Hm;
      [done|]. intros [= <- <-]. split; [done|].
    split; [exists f; split; [done | by apply mode_check_protected]|].
    split; [done|]. split; [done | by rewrite Hf].
  - destruct (decide (q0 ∈ unwritable h)); [done|]. intros [= <- Hh']. split; [done|].
    specialize (Hcreated Hf).
    split; [eexists; split; [exact Hcreated | by left]|].
    split; [intros q Hq; rewrite <- Hh'; cbn; by rewrite lookup_alter_ne, lookup_insert_ne|].
    split; [intros [? ?]; congruence|]. intros _. split; [exact Hcreated|].
    intros t w Hp Hh. eapply empty_cache_has_no_token; [by rewrite Hp, Hh|done].
Qed.

Section CycleInvariants.
Context `{SecretCodec} `{PointLibrary}.

(** X2. Whatever the cycles of [Manage] do, they keep the account and the
    token path of the client and change no file but the token cache; a
    token cache that passes the mode check of the store still passes it
    afterwards, so that [GetRefreshToken] does not answer with its
    protection error. *)
Theorem cycles_keep_the_disk conf waits g t w g' t' w' :
  Forall (λ d, 0 ≤ d) waits →
  Manage_cycles conf waits g t w = Ok g' t' w' →
  refreshTokenPath t' = refreshTokenPath t ∧
  Username t' = Username t ∧ password t' = password t ∧
  (∀ p, p ≠ refreshTokenPath t → files (host w') !! p = files (host w) !! p) ∧
  (trusted (refreshTokenPath t) (host w) →
     trusted (refreshTokenPath t') (host w') ∧
     snd (GetRefreshToken t' w') ≠ Some "refresh token cache is not properly protected").
Proof.
  intros Hwaits Hrun.
  destruct (wp_run _ _ _ _ _ _ _ _ (Manage_cycles_watermark conf waits g t w Hwaits) Hrun)
    as [Hframe _].
  pose proof Hframe as (Hp & Hu & Hs & (_ & _ & _ & _ & Ho & _) & _).
  do 3 (split; [done|]). split; [done|]. intros Htrusted.
  pose proof (frame_trusted _ _ _ _ Hframe Htrusted) as Htrusted'. split; [done|].
  destruct Htrusted' as (f & Hf & Hprot). unfold GetRefreshToken, Stat, ReadFile. rewrite Hf.
  apply mode_check_protected in Hprot. rewrite Hprot.
  repeat case_match; simplify_eq/=; done.
Qed.

(** X3. With services that take no negative time and waits that are not
    negative, a watermark that is not in the future never goes back over
    the cycles of [Manage], and stays not in the future. *)
Theorem watermark_never_goes_back conf waits g t w g' t' w' :
  calm w → Forall (λ d, 0 ≤ d) waits → lastSync g ≤ now w →
  Manage_cycles conf waits g t w = Ok g' t' w' →
  lastSync g ≤ lastSync g' ∧ lastSync g' ≤ now w'.
Proof.
  intros Hcalm Hwaits Hsync Hrun.
  destruct (wp_run _ _ _ _ _ _ _ _ (Manage_cycles_watermark conf waits g t w Hwaits) Hrun)
    as [_ Hmark].
  by apply Hmark.
Qed.

End CycleInvariants.

(** ** The credential manager, further *)

Lemma len_zero s : (len s =? 0) = true ↔ s = "".
Proof.
  unfold len. rewrite Z.eqb_eq. destruct s; cbn [String.length]; split; (done || lia).
Qed.

Lemma len_positive s : (0 <? len s) = true ↔ s ≠ "".
Proof.
  unfold len. rewrite Z.ltb_lt. destruct s; cbn [String.length]; split; (done || lia).
Qed.

Section ManagerFurther.
Context `{SecretCodec}.


(** What a save that succeeds leaves, beside the file (see
    [SaveRefreshToken_saved]). *)
Lemma SaveRefreshToken_succeeded token t w t' w' :
  SaveRefreshToken token t w = Ok None t' w' →
  token ≠ "" ∧ (refreshTokenPath t ∉ unwritable (host w)) ∧
  net w' = net w ∧ sink w' = sink w ∧ trace w' = trace w.
Proof.
  unfold SaveRefreshToken, WriteFile, mbind, M_bind, mret, M_ret, get_t, get_w, put_w.
  destruct (len token =? 0) eqn:Hlen; [done|].
  destruct (decide (refreshTokenPath t ∈ unwritable (host w))); cbn; [done|].
  intros [= <- <-]. split; [|done]. intros ->. by rewrite (proj2 (len_zero "")) in Hlen.
Qed.


Lemma install_tokens_succeeded r t w t' w' :
  install_tokens r t w = Ok None t' w' →
  ∃ resp, r = inl resp ∧ Z.quot (StatusCode resp) 100 < 4 ∧
    let tokens := fst (decode_TokenResponse (Body_ resp)) in
    RefreshToken_ tokens ≠ "" ∧ (refreshTokenPath t ∉ unwritable (host w)) ∧
    t' = installed t (now w) tokens ∧ now w' = now w ∧
    net w' = net w ∧ sink w' = sink w ∧ trace w' = trace w ∧
    files (host w') !! refreshTokenPath t =
      Some {| f_mode := match files (host w) !! refreshTokenPath t with
                        | Some f => f_mode f
                        | None => Z.ldiff mode_0666 (umask (host w))
                        end;
              f_modTime := now w; f_data := TokenEncrypt (RefreshToken_ tokens) |}.
Proof.
  unfold install_tokens. destruct r as [resp|err]; [|done].
  destruct (4 <=? Z.quot (StatusCode resp) 100) eqn:Hstatus; [done|].
  apply Z.leb_gt in Hstatus. unfold mbind, M_bind.
  destruct (SaveRefreshToken _ t w) as [[e1|] t1 w1|] eqn:Hsave; [done| |done].
  destruct (SaveRefreshToken_succeeded _ _ _ _ _ Hsave) as (Hne & Hw & Hnet & Hsink & Htr).
  destruct (SaveRefreshToken_saved _ _ _ _ _ Hsave) as (-> & Hnow & _ & _ & Hfile).
  cbn. intros [= <- <-]. exists resp. split; [done|]. split; [done|]. cbn zeta.
  rewrite Hnow. unfold installed. by repeat split.
Qed.


Lemma client_Do_answered rq r rest t w :
  net w = r :: rest → client_Do rq t w = Ok (result r) t (answered rq r rest w).
Proof. intros Hnet. unfold client_Do. cbn. by rewrite Hnet. Qed.

Lemma client_Do_refused rq t w :
  net w = [] →
  client_Do rq t w = Ok (inr "connection refused") t (emit (EvSent rq (host w) (now w)) w).
Proof. intros Hnet. unfold client_Do. cbn. by rewrite Hnet. Qed.

Lemma AquireToken_steps t w :
  AquireToken t w =
    match net w with
    | [] => Ok (Some "connection refused") t (emit (EvSent (password_request t) (host w) (now w)) w)
    | r :: rest => install_tokens (result r) t (answered (password_request t) r rest w)
    end.
Proof.
  unfold AquireToken, mbind, M_bind. cbn [get_t]. fold (password_request t).
  destruct (net w) as [|r rest] eqn:Hnet.
  - by rewrite (client_Do_refused _ _ _ Hnet).
  - by rewrite (client_Do_answered _ _ _ _ _ Hnet).
Qed.

Lemma RefreshToken_steps t w :
  RefreshToken t w =
    if HasRefreshToken t w then
      match GetRefreshToken t w with
      | (_, Some e) => Ok (Some e) t w
      | (secret, None) =>
          match net w with
          | [] => Ok (Some "connection refused") t
                    (emit (EvSent (refresh_request secret) (host w) (now w)) w)
          | r :: rest =>
              install_tokens (result r) t (answered (refresh_request secret) r rest w)
          end
      end
    else Ok (Some "No refresh token") t w.
Proof.
  unfold RefreshToken, mbind, M_bind, read. destruct (HasRefreshToken t w); [|done]. cbn.
  destruct (GetRefreshToken t w) as [secret [e|]]; [done|]. fold (refresh_request secret).
  destruct (net w) as [|r rest] eqn:Hnet.
  - by rewrite (client_Do_refused _ _ _ Hnet).
  - by rewrite (client_Do_answered _ _ _ _ _ Hnet).
Qed.


Lemma installed_timing t now_ tokens :
  0 < ExpiresIn tokens ≤ 9223372036 →
  now_ ≤ refresh (installed t now_ tokens) ∧
  refresh (installed t now_ tokens) < expires (installed t now_ tokens).
Proof.
  intros [Hlo Hhi]. unfold installed, Add, dmul, wrap64, Second. cbn [refresh expires].
  assert (0 ≤ Z.quot (ExpiresIn tokens) 2 < ExpiresIn tokens) as Hhalf.
  { rewrite Z.quot_div_nonneg by lia. split; [apply Z.div_pos; lia | apply Z.div_lt; lia]. }
  change (2 ^ 63) with 9223372036854775808. change (2 ^ 64) with 18446744073709551616.
  generalize dependent (Z.quot (ExpiresIn tokens) 2). intros half Hhalf.
  rewrite !Z.mod_small by lia. lia.
Qed.

(** X5. [AquireToken] succeeds only on an answer of status below 400 that
    carries a refresh token, and only if that token could be saved. The
    session it installs is the access token of the answer with the expiry
    [expires_in] seconds and the renewal watermark half of them after the
    instant the answer arrived, and the token cache then holds the refresh
    token of the answer, obfuscated. With [expires_in] between 1 and
    9223372036 the watermark is at or after that instant and strictly
    before the expiry. *)
Theorem AquireToken_installs t w t' w' :
  AquireToken t w = Ok None t' w' →
  ∃ r rest resp,
    net w = r :: rest ∧ result r = inl resp ∧ Z.quot (StatusCode resp) 100 < 4 ∧
    let tokens := fst (decode_TokenResponse (Body_ resp)) in
    RefreshToken_ tokens ≠ "" ∧
    now w' = now w + latency r ∧ net w' = rest ∧
    t' = installed t (now w') tokens ∧
    (∃ f, files (host w') !! refreshTokenPath t = Some f ∧
          f_data f = TokenEncrypt (RefreshToken_ tokens) ∧ f_modTime f = now w') ∧
    (0 < ExpiresIn tokens ≤ 9223372036 → now w' ≤ refresh t' ∧ refresh t' < expires t').
Proof.
  rewrite AquireToken_steps. destruct (net w) as [|r rest]; [done|]. intros Hrun.
  apply install_tokens_succeeded in Hrun
    as (resp & Hres & Hstatus & Hrt & _ & -> & Hnow & Hnet & _ & _ & Hfile).
  exists r, rest, resp. do 3 (split; [done|]). cbn zeta. split; [done|].
  cbn in Hnow, Hnet. rewrite Hnow. split; [done|]. split; [done|]. split; [done|].
  split; [eexists; split; [exact Hfile | done]|].
  intros Hrange. change (now w + latency r) with (Add (now w) (latency r)).
  by apply installed_timing.
Qed.


Lemma HasRefreshToken_true t w :
  HasRefreshToken t w = true →
  ∃ f, files (host w) !! refreshTokenPath t = Some f ∧ protected (host w) f ∧
       ¬ stale_file f (now w) ∧ f_data f ≠ "".
Proof.
  unfold HasRefreshToken, Stat.
  destruct (files (host w) !! refreshTokenPath t) as [f|]; [|done].
  destruct (store_checks (host w) f (now w))
    as [[_ ->] | (Hp & -> & [[_ ->] | (Hns & -> & [[_ ->] | [Hne ->]])])]; try done.
  intros _. by exists f.
Qed.

(** X6. [RefreshToken] always returns. Without a usable credential on the
    disk it sends nothing and changes nothing. Whatever it sends is one
    request of the refresh grant whose secret is the content of the token
    cache, decoded; the account's name and password are not in it. *)
Theorem RefreshToken_sends_the_stored_secret t w :
  ∃ err t' w',
    RefreshToken t w = Ok err t' w' ∧
    (HasRefreshToken t w = false → err = Some "No refresh token" ∧ t' = t ∧ w' = w) ∧
    (trace w' = trace w ∨
     ∃ f rq, files (host w) !! refreshTokenPath t = Some f ∧
             rq = refresh_request (TokenDecrypt (f_data f)) ∧
             trace w' = trace w ++ [EvSent rq (host w) (now w)] ∧
             rq_form rq !! "refresh_token" = Some (TokenDecrypt (f_data f)) ∧
             rq_form rq !! "username" = None ∧ rq_form rq !! "password" = None).
Proof.
  rewrite RefreshToken_steps. destruct (HasRefreshToken t w) eqn:Hhas;
    [|do 3 eexists; split; [done|]; split; [done|]; by left].
  destruct (HasRefreshToken_true _ _ Hhas) as (f & Hf & Hp & Hns & Hne).
  rewrite (GetRefreshToken_reads t w f Hf Hp Hns Hne).
  destruct (decide _); [do 3 eexists; split; [done|]; split; [done|]; by left|].
  assert (∀ w1, trace w1 = trace w ++ [EvSent (refresh_request (TokenDecrypt (f_data f)))
                                        (host w) (now w)] →
            trace w1 = trace w ∨
            ∃ f0 rq, files (host w) !! refreshTokenPath t = Some f0 ∧
              rq = refresh_request (TokenDecrypt (f_data f0)) ∧
              trace w1 = trace w ++ [EvSent rq (host w) (now w)] ∧
              rq_form rq !! "refresh_token" = Some (TokenDecrypt (f_data f0)) ∧
              rq_form rq !! "username" = None ∧ rq_form rq !! "password" = None) as Hsent.
  { intros w1 Htr. right. exists f. eexists. do 3 (split; [done|]). by vm_compute. }
  destruct (net w) as [|r rest]; [do 3 eexists; split; [done|]; split; [done|]; by apply Hsent|].
  destruct (wp_ok _ _ _ _ (install_tokens_spec (result r) t
              (answered (refresh_request (TokenDecrypt (f_data f))) r rest w)))
    as (err & t' & w' & Hrun & _ & _ & Htr & _).
  exists err, t', w'. split; [done|]. split; [done|]. by apply Hsent.
Qed.

Lemma flows_of_return_if_expired err t w :
  wp False (return_if_expired err) t w (λ f t' w', t' = t ∧ w' = w ∧ f ≠ Return None).
Proof.
  unfold return_if_expired. destruct err as [e|]; [|done].
  do 2 (apply wp_bind; cbn). by destruct (Before (expires t) (now w)).
Qed.

Lemma flows_of_return_if_error err t w :
  wp False (return_if_error err) t w (λ f t' w', t' = t ∧ w' = w ∧ f ≠ Return None).
Proof. unfold return_if_error. by destruct err. Qed.

Lemma renewal_flows (k : option string → M (Flow (option string))) t w :
  (∀ err t w, wp False (k err) t w (λ f t' w', t' = t ∧ w' = w ∧ f ≠ Return None)) →
  wp False (has ← read HasRefreshToken;
            if (has : bool) then (err ← RefreshToken; k err)
            else (err ← AquireToken; k err)) t w
    (λ f _ _, f ≠ Return None).
Proof.
  intros Hk. apply wp_bind. cbn.
  destruct (HasRefreshToken t w); apply wp_bind.
  - eapply wp_mono; [apply RefreshToken_spec|]. intros err t1 w1 _.
    eapply wp_mono; [apply Hk|]. by intros f ? ? (_ & _ & ?).
  - eapply wp_mono; [apply AquireToken_spec|]. intros err t1 w1 _.
    eapply wp_mono; [apply Hk|]. by intros f ? ? (_ & _ & ?).
Qed.

(** [AuthCheck] answers without error only with an access token in hand. *)
Lemma AuthCheck_token t w :
  wp False AuthCheck t w (λ err t' _, err = None → accessToken t' ≠ "").
Proof.
  unfold AuthCheck. apply wp_bind. cbn. apply wp_bind.
  eapply wp_mono with (Q := λ f t1 _, f = Return None → accessToken t1 ≠ "").
  { destruct (0 <? len (accessToken t)) eqn:Hlen; [|done].
    apply wp_bind. cbn. destruct (After (refresh t) (now w)).
    - intros _. by apply len_positive.
    - eapply wp_mono; [apply renewal_flows, flows_of_return_if_expired|]. by intros. }
  intros [r|] t1 w1 Hf1; [intros ->; by apply Hf1|].
  apply wp_bind. cbn. apply wp_bind.
  eapply wp_mono with (Q := λ f _ _, f ≠ Return None).
  { destruct (len (accessToken t1) =? 0); [|done].
    apply renewal_flows, flows_of_return_if_error. }
  intros [r|] t2 w2 Hf2; [intros ->; by destruct Hf2|].
  apply wp_bind. cbn. destruct (len (accessToken t2) =? 0) eqn:Hlen; [done|].
  intros _ Hempty. apply len_zero in Hempty. congruence.
Qed.

(** X7. [AuthCheck] always returns, and when it returns no error the
    client holds an access token that is not empty; this holds also when the
    token endpoint answers a grant with an empty access token, which ends in
    the error "No access token". *)
Theorem AuthCheck_success_has_token t w :
  ∃ err t' w', AuthCheck t w = Ok err t' w' ∧ (err = None → accessToken t' ≠ "").
Proof.
  destruct (wp_ok _ _ _ _ (AuthCheck_token t w)) as (err & t' & w' & Hrun & Htoken).
  by exists err, t', w'.
Qed.

End ManagerFurther.


Section ApiFurther.
Context `{SecretCodec}.









End ApiFurther.

(** ** Start-up and the first authorization *)

Section FirstAuthorization.
Context `{SecretCodec}.

Lemma AuthCheck_acquires t w err t' w' :
  accessToken t = "" → HasRefreshToken t w = false →
  AquireToken t w = Ok err t' w' → ∃ err', AuthCheck t w = Ok err' t' w'.
Proof.
  intros Htoken Hhas Hrun. unfold AuthCheck, mbind, M_bind, read, get_t, mret, M_ret.
  rewrite Htoken. change (0 <? len "") with false.
  cbv beta iota. rewrite Htoken. change (len "" =? 0) with true.
  cbv beta iota. rewrite Hhas. cbv beta iota. rewrite Hrun.
  destruct err as [e|]; cbn; [by eauto|].
  destruct (len (accessToken t') =? 0); by eauto.
Qed.

(** X11. After a start-up that had to create the token cache, the first
    [AuthCheck] of the new client sends exactly one request: the password
    grant with the name and the password of the account. *)
Theorem first_authorization_uses_the_password
    configname p h now_ path h' username password_ w :
  token_cache configname p h now_ = Started path h' →
  files h !! path = None → host w = h' →
  let t := NewTado username password_ path in
  ∃ err t' w',
    AuthCheck t w = Ok err t' w' ∧
    trace w' = trace w ++ [EvSent (password_request t) (host w) (now w)] ∧
    rq_form (password_request t) !! "grant_type" = Some "password" ∧
    rq_form (password_request t) !! "username" = Some username ∧
    rq_form (password_request t) !! "password" = Some password_.
Proof.
  intros Hstart Hmissing Hhost t.
  assert (HasRefreshToken t w = false) as Hhas.
  { apply (empty_cache_has_no_token t w
             {| f_mode := mode_0600; f_modTime := now_; f_data := "" |}); [|done].
    rewrite Hhost. cbn.
    exact (token_cache_creates _ _ _ _ _ _ Hstart Hmissing). }
  assert (∃ err t' w', AquireToken t w = Ok err t' w' ∧
            trace w' = trace w ++ [EvSent (password_request t) (host w) (now w)])
    as (err & t' & w' & Hrun & Htr).
  { rewrite AquireToken_steps. destruct (net w) as [|r rest];
      [do 3 eexists; split; done|].
    destruct (wp_ok _ _ _ _ (install_tokens_spec (result r) t
                (answered (password_request t) r rest w)))
      as (err & t' & w' & Hrun & _ & _ & Htr & _). by exists err, t', w'. }
  destruct (AuthCheck_acquires t w err t' w' eq_refl Hhas Hrun) as [err' Hcheck].
  exists err', t', w'. by repeat split.
Qed.

End FirstAuthorization.

(** ** The points of the cycle *)

Lemma upper_ascii_O c : upper_ascii c = "O"%char ↔ c = "O"%char ∨ c = "o"%char.
Proof.
  assert (Ascii.eqb (upper_ascii c) "O" = Ascii.eqb c "O" || Ascii.eqb c "o") as Hb
    by (destruct c as [[] [] [] [] [] [] [] []]; reflexivity).
  by rewrite <- Ascii.eqb_eq, Hb, orb_true_iff, !Ascii.eqb_eq.
Qed.

Lemma upper_ascii_N c : upper_ascii c = "N"%char ↔ c = "N"%char ∨ c = "n"%char.
Proof.
  assert (Ascii.eqb (upper_ascii c) "N" = Ascii.eqb c "N" || Ascii.eqb c "n") as Hb
    by (destruct c as [[] [] [] [] [] [] [] []]; reflexivity).
  by rewrite <- Ascii.eqb_eq, Hb, orb_true_iff, !Ascii.eqb_eq.
Qed.

(** The comparison of line 80 holds for the four spellings of "on" and for
    no other value. *)
Lemma ToUpper_ON v : String.eqb (ToUpper v) "ON" = reads_on v.
Proof.
  unfold reads_on. apply eq_true_iff_eq. rewrite String.eqb_eq, bool_decide_eq_true.
  rewrite !elem_of_cons, elem_of_nil.
  destruct v as [|c1 [|c2 [|c3 r]]]; cbn [ToUpper];
    try (split; [done | intros [?|[?|[?|[?|[]]]]]; discriminate]).
  split.
  - intros [= H1 H2]. apply upper_ascii_O in H1. apply upper_ascii_N in H2.
    destruct H1 as [-> | ->], H2 as [-> | ->]; auto 6.
  - intros [Hv|[Hv|[Hv|[Hv|[]]]]]; injection Hv as -> ->; reflexivity.
Qed.

Section PointsFurther.
Context `{SecretCodec} `{PointLibrary}.

Lemma power_of_derived act t w :
  (∀ ac, AcPower_ act = Some ac → is_Some (ac_Value ac)) →
  (∀ hp, HeatingPower_ act = Some hp → is_Some (hp_Percentage hp)) →
  power_of act t w =
    Ok (derived_power (AcPower_ act ≫= ac_Value) (HeatingPower_ act ≫= hp_Percentage)) t w.
Proof.
  intros Hac Hhp. unfold power_of, derived_power.
  destruct (AcPower_ act) as [[[v|] ?]|]; [|by destruct (Hac _ eq_refl)|];
    (destruct (HeatingPower_ act) as [[[p|] ?]|]; [|by destruct (Hhp _ eq_refl)|]);
    run_steps; rewrite <- ?ToUpper_ON; try done; by destruct (String.eqb _ _).
Qed.

(** X12. The power percentage of a point is the heating power when the
    state has one; without it, it is 100 when the AC indicator reads "ON",
    "On", "oN" or "on", and 0 for any other value and without an indicator.
    The derivation panics exactly on an indicator without a value and on a
    heating power without a percentage. *)
Theorem power_of_derivation act t w :
  match AcPower_ act, HeatingPower_ act with
  | Some {| ac_Value := None |}, _ | _, Some {| hp_Percentage := None |} =>
      ∃ msg, power_of act t w = Panic msg
  | ac, heating =>
      power_of act t w =
        Ok match heating ≫= hp_Percentage, ac ≫= ac_Value with
           | Some p, _ => p
           | None, Some v =>
               if bool_decide (v ∈ ["ON"; "On"; "oN"; "on"]) then f32_100 else f32_0
           | None, None => f32_0
           end t w
  end.
Proof.
  unfold power_of.
  destruct (AcPower_ act) as [[[v|] ?]|], (HeatingPower_ act) as [[[p|] ?]|]; run_steps;
    rewrite ?ToUpper_ON; unfold reads_on;
    first [by eauto | by destruct (bool_decide _) | destruct (bool_decide _); by eauto].
Qed.

(** X13. A zone state whose temperature is present with a time stamp not
    before the watermark, and whose other parts are there, adds exactly one
    pointer to the batch and changes nothing else: the point named
    home.zone, with the ids and names as tags, the temperature, the
    humidity and the derived power as fields and the time stamp of the
    temperature as its time; or the nil pointer, when the library refuses
    that point. A zone id that the cache does not know gives the point the
    empty zone name. *)
Theorem collect_state_builds_the_point
    home g zoneId state temp ts celsius humidity percentage t w :
  InsideTemperature (SensorDataPoints_ state) = Some temp →
  Timestamp temp = Some ts → lastSync g ≤ ts → Celsius temp = Some celsius →
  Humidity_ (SensorDataPoints_ state) = Some humidity →
  hum_Percentage humidity = Some percentage →
  (∀ ac, AcPower_ (ActivityDataPoints_ state) = Some ac → is_Some (ac_Value ac)) →
  (∀ hp, HeatingPower_ (ActivityDataPoints_ state) = Some hp → is_Some (hp_Percentage hp)) →
  let zoneName := default "" (zone_lookup (zones g) (Id home) zoneId) in
  let power := derived_power (AcPower_ (ActivityDataPoints_ state) ≫= ac_Value)
                 (HeatingPower_ (ActivityDataPoints_ state) ≫= hp_Percentage) in
  let pt := {| pt_name := Name home +:+ "." +:+ zoneName;
               pt_tags := point_tags home zoneId zoneName;
               pt_fields := point_fields celsius percentage power;
               pt_time := ts |} in
  collect_state home g (zoneId, state) t w =
    Ok {| zones := zones g;
          points := points g ++
            [match NewPoint_check (pt_name pt) (pt_tags pt) (pt_fields pt) (pt_time pt) with
             | None => Some pt
             | Some _ => None
             end];
          lastSync := lastSync g |} t w.
Proof.
  intros Htemp Hts Hle Hc Hhum Hpct Hac Hhp zoneName power pt.
  unfold collect_state. rewrite Htemp, Hts, Hc, Hhum. run_steps.
  assert (Before ts (lastSync g) = false) as -> by (apply Z.ltb_ge; lia).
  rewrite (power_of_derived _ t w Hac Hhp). rewrite Hpct. cbn [deref mret M_ret].
  unfold NewPoint. fold zoneName power. unfold zone_name. fold zoneName.
  fold (point_tags home zoneId zoneName). fold (point_fields celsius percentage power).
  change (NewPoint_check _ _ _ _) with
    (NewPoint_check (pt_name pt) (pt_tags pt) (pt_fields pt) (pt_time pt)).
  by destruct (NewPoint_check _ _ _ _).
Qed.

End PointsFurther.

(** ** The topology cache, further *)

Lemma Itoa_inj a b : Itoa a = Itoa b → a = b.
Proof. unfold Itoa. apply (inj pretty). Qed.

Lemma zones_of_snoc zs z :
  zones_of (zs ++ [z]) = <[Itoa (zone_Id z) := zone_Name z]> (zones_of zs).
Proof. unfold zones_of. by rewrite fold_left_app. Qed.

Lemma zones_of_from zs key name :
  zones_of zs !! key = Some name →
  ∃ z, z ∈ zs ∧ key = Itoa (zone_Id z) ∧ name = zone_Name z.
Proof.
  induction zs as [|z zs IH] using rev_ind; [done|].
  rewrite zones_of_snoc. destruct (decide (Itoa (zone_Id z) = key)) as [<-|Hne].
  - rewrite lookup_insert_eq. intros [= <-]. exists z. split; [|done].
    apply elem_of_app. right. by apply list_elem_of_singleton.
  - rewrite lookup_insert_ne by done. intros Hold.
    destruct (IH Hold) as (z' & Hin & Hk & Hn). exists z'. split; [|done].
    apply elem_of_app. by left.
Qed.

Lemma zones_of_to zs z :
  NoDup (zone_Id <$> zs) → z ∈ zs →
  zones_of zs !! Itoa (zone_Id z) = Some (zone_Name z).
Proof.
  induction zs as [|z' zs IH] using rev_ind; [by intros _ Hin; apply elem_of_nil in Hin|].
  rewrite fmap_app, zones_of_snoc. intros Hnodup Hin.
  apply NoDup_app in Hnodup as (Hzs & Hfresh & _).
  apply elem_of_app in Hin as [Hin | Hin].
  - rewrite lookup_insert_ne; [by apply IH|]. intros Heq. apply Itoa_inj in Heq.
    apply (Hfresh (zone_Id z)); [by apply list_elem_of_fmap_2|].
    rewrite <- Heq. cbn. apply list_elem_of_singleton. done.
  - apply list_elem_of_singleton in Hin as ->. by rewrite lookup_insert_eq.
Qed.

Section TopologyFurther.
Context `{SecretCodec}.

(** X14. A topology fetch that succeeds for a stale cache replaces the
    entry of the home as a whole: afterwards a zone id resolves only to the
    name of a fetched zone with that id in decimal, so names of zones that
    are gone are dropped; with distinct ids every fetched zone resolves to
    its name. The entries of the other homes, the batch and the watermark
    are as before. *)
Theorem refresh_zones_replaces g home states t w newZones t' w' :
  cache_stale g home states →
  GetZones (Id home) t w = Ok (newZones, None) t' w' →
  ∃ g',
    refresh_zones g home states t w = Ok (Some g') t' w' ∧
    points g' = points g ∧ lastSync g' = lastSync g ∧
    (∀ other, other ≠ Id home → zones g' !! other = zones g !! other) ∧
    (∀ key name, zone_lookup (zones g') (Id home) key = Some name →
       ∃ z, z ∈ newZones ∧ key = Itoa (zone_Id z) ∧ name = zone_Name z) ∧
    (NoDup (zone_Id <$> newZones) →
       ∀ z, z ∈ newZones →
         zone_lookup (zones g') (Id home) (Itoa (zone_Id z)) = Some (zone_Name z)).
Proof.
  intros Hstale Hfetch. apply stale_iff in Hstale.
  eexists. split.
  { unfold refresh_zones. rewrite Hstale. unfold mbind, M_bind. by rewrite Hfetch. }
  cbn [points lastSync zones]. do 2 (split; [done|]).
  split; [intros other Hother; by rewrite lookup_insert_ne|].
  unfold zone_lookup. split.
  - intros key name. rewrite lookup_insert_eq. cbn. apply zones_of_from.
  - intros Hnodup z Hin. rewrite lookup_insert_eq. cbn. by apply zones_of_to.
Qed.

End TopologyFurther.

(** ** Cycles that do not panic *)


Section CompleteStates.
Context `{SecretCodec} `{PointLibrary}.










End CompleteStates.

(** * The further properties on concrete inputs *)

(** X1, witness: the start-up on a Linux disk without a token cache. *)
Lemma token_cache_started_witness :
  trusted "gotadoflux.token" started_disk ∧
  files started_disk !! "gotadoflux.token" =
    Some {| f_mode := mode_0600; f_modTime := 0; f_data := "" |}.
Proof.
  destruct (token_cache_started "gotadoflux" "" (linux_host ∅) 0 "gotadoflux.token"
              started_disk) as (_ & Htrusted & _ & _ & Hnew).
  - vm_compute. reflexivity.
  - split; [exact Htrusted|]. apply Hnew. reflexivity.
Defined.

(** X2, witness: two cycles of a process that has just started. *)
Lemma cycles_keep_the_disk_witness :
  let t1 := client_or demo_client two_cycles in
  let w1 := world_or started_cycle two_cycles in
  refreshTokenPath t1 = "gotadoflux.token" ∧ trusted (refreshTokenPath t1) (host w1).
Proof.
  intros t1 w1.
  destruct (cycles_keep_the_disk (H := masking_codec) (H0 := lenient_library) demo_conf
              [60 * Second] fresh_globals demo_client started_cycle
              (default fresh_globals (answer two_cycles)) t1 w1)
    as (Hpath & _ & _ & _ & Htrusted).
  - repeat constructor. vm_compute. discriminate.
  - vm_compute. reflexivity.
  - split; [exact Hpath|]. apply Htrusted.
    exists {| f_mode := mode_0600; f_modTime := 0; f_data := "" |}.
    split; [vm_compute; reflexivity | left; reflexivity].
Defined.

(** X3, witness: the watermark of the same two cycles. *)
Lemma watermark_never_goes_back_witness :
  let g1 := default fresh_globals (answer two_cycles) in
  let w1 := world_or started_cycle two_cycles in
  lastSync fresh_globals ≤ lastSync g1 ∧ lastSync g1 ≤ now w1.
Proof.
  intros g1 w1.
  apply (watermark_never_goes_back (H := masking_codec) (H0 := lenient_library) demo_conf
           [60 * Second] fresh_globals demo_client started_cycle g1
           (client_or demo_client two_cycles) w1).
  - split; repeat constructor; vm_compute; discriminate.
  - repeat constructor. vm_compute. discriminate.
  - vm_compute. discriminate.
  - vm_compute. reflexivity.
Defined.

(** X5, witness: the password grant of the new process is answered with
    [demo_tokens]. *)
Lemma AquireToken_installs_witness :
  let t1 := client_or demo_client first_grant in
  let w1 := world_or started_cycle first_grant in
  ∃ f, t1 = installed demo_client (now w1) demo_tokens ∧
       files (host w1) !! "gotadoflux.token" = Some f ∧ f_data f = mask "renew-1".
Proof.
  intros t1 w1.
  destruct (AquireToken_installs (H := masking_codec) demo_client started_cycle t1 w1)
    as (r & rest & resp & Hnet & Hresult & _ & Hinstalled).
  - vm_compute. reflexivity.
  - injection Hnet as <- <-. injection Hresult as <-.
    destruct Hinstalled as (_ & _ & _ & Ht & (f & Hf & Hdata & _) & _).
    exists f. split; [exact Ht|]. split; [exact Hf | exact Hdata].
Defined.


(** X11, witness: the first authorization of the new process. *)
Lemma first_authorization_uses_the_password_witness :
  ∃ err t' w',
    AuthCheck (H := masking_codec) demo_client started_cycle = Ok err t' w' ∧
    trace w' = [EvSent (password_request demo_client) started_disk (1000 * Second)].
Proof.
  destruct (first_authorization_uses_the_password (H := masking_codec) "gotadoflux" ""
              (linux_host ∅) 0 "gotadoflux.token" started_disk "user" "secret"
              started_cycle) as (err & t' & w' & Hrun & Htrace & _).
  - vm_compute. reflexivity.
  - reflexivity.
  - reflexivity.
  - exists err, t', w'. split; [exact Hrun | exact Htrace].
Defined.

(** X13, witness: the state of scenario A with its zone in the cache. *)
Lemma collect_state_builds_the_point_witness :
  collect_state (H0 := lenient_library) home_1 known_zones ("10", lounge_state None)
    demo_client started_cycle =
  Ok {| zones := zones known_zones; points := [Some lounge_point]; lastSync := 0 |}
     demo_client started_cycle.
Proof.
  refine (eq_trans
    (collect_state_builds_the_point (H0 := lenient_library) home_1 known_zones "10"
       (lounge_state None) {| Celsius := Some f32_21_5; Timestamp := Some (100 * Second) |}
       (100 * Second) f32_21_5
       {| hum_Percentage := Some f32_45; hum_Timestamp := Some (100 * Second) |}
       f32_45 demo_client started_cycle _ _ _ _ _ _ _ _) _).
  - reflexivity.
  - reflexivity.
  - vm_compute. discriminate.
  - reflexivity.
  - reflexivity.
  - reflexivity.
  - intros ac Hac. discriminate Hac.
  - intros hp Hhp. injection Hhp as <-. exists f32_30. reflexivity.
  - vm_compute. reflexivity.
Defined.

(** X14, witness: the topology fetch of the first cycle of scenario A. *)
Lemma refresh_zones_replaces_witness :
  let t1 := client_or demo_client first_states in
  let w1 := world_or (first_cycle (lounge_state None)) first_states in
  ∃ g', refresh_zones (H := masking_codec) fresh_globals home_1
          {| ZoneStates := [("10", lounge_state None)] |} t1 w1 =
          Ok (Some g') (client_or t1 first_zones) (world_or w1 first_zones) ∧
        zone_lookup (zones g') 1 "10" = Some "Lounge".
Proof.
  intros t1 w1.
  destruct (refresh_zones_replaces (H := masking_codec) fresh_globals home_1
              {| ZoneStates := [("10", lounge_state None)] |} t1 w1 [lounge]
              (client_or t1 first_zones) (world_or w1 first_zones))
    as (g' & Hrun & _ & _ & _ & _ & Hto).
  - left. reflexivity.
  - vm_compute. reflexivity.
  - exists g'. split; [exact Hrun|]. apply (Hto (NoDup_singleton _) lounge). constructor.
Defined.

